(** * github-activity-cli: a shallow embedding of [github_activity.py]

    The development follows the source file top to bottom: the Python
    values the program manipulates ([Py]), what it calls but does not
    define ([Env]), the SQLite cache ([Cache]), the primary fetch
    ([Fetch]), the filter stage ([Filter]), the enrichment stage
    ([Enrich]), the formatter ([Datetime], [Format]) and the command-line
    driver ([Main]).  [Spec] holds the notions the specification uses and
    [Demo] some sample inputs.  The first part of the file holds the
    definitions, the second part the theorems about them. *)

From Stdlib Require Import ZArith List Ascii String Bool Lia.
From Stdlib Require Import Floats.SpecFloat.
From Stdlib Require Import DecimalString.
From stdpp Require Import base option list gmap strings.

Local Open Scope Z_scope.
Local Open Scope string_scope.
Import ListNotations.

(** ** Python values and exceptions *)

Module Py.

(** What [json.loads] builds: [None], booleans, integers, floats, strings,
    lists, and dicts with string keys.  A dict is kept as an association
    list in insertion order, as Python keeps it.  A string is the sequence
    of its characters, one [ascii] for each, the number of the [ascii]
    being the code point: the strings here are the ones whose code points
    are below 256. *)
#[warnings="-register-all"]
Inductive json : Type :=
| JNull
| JBool (b : bool)
| JInt (n : Z)
| JFloat (f : spec_float)
| JStr (s : string)
| JArr (xs : list json)
| JObj (kvs : list (string * json)).

(** The exception classes the program can meet.  [OtherError] stands for
    every other subclass of [Exception] (I/O errors, decoding errors of the
    transport, ...). *)
Inductive exn_class : Type :=
| KeyError | TypeError | AttributeError | ValueError | JSONDecodeError
| OtherError.

Record exn : Type := Exn { exn_cls : exn_class; exn_msg : string }.

(** A call returns, raises an [Exception], or leaves through [sys.exit]
    ([SystemExit] is not an [Exception], so [except Exception] lets it
    through). *)
Inductive outcome (A : Type) : Type :=
| Ret (a : A)
| Raise (e : exn)
| Exit (code : Z).
Arguments Ret {A} a.
Arguments Raise {A} e.
Arguments Exit {A} code.

(** The result of a library call that returns or raises. *)
Definition checked {A : Type} (r : exn + A) : outcome A :=
  match r with
  | inl e => Raise e
  | inr a => Ret a
  end.

#[global] Instance outcome_ret : MRet outcome := fun A a => Ret a.
#[global] Instance outcome_bind : MBind outcome := fun A B f m =>
  match m with
  | Ret a => f a
  | Raise e => Raise e
  | Exit c => Exit c
  end.

(** [d.get(k)] and [d[k] = v] on the association list of a dict. *)
Fixpoint dict_get {V : Type} (k : string) (d : list (string * V)) : option V :=
  match d with
  | [] => None
  | (k', v) :: rest => if String.eqb k k' then Some v else dict_get k rest
  end.

Fixpoint dict_set {V : Type} (k : string) (v : V) (d : list (string * V))
  : list (string * V) :=
  match d with
  | [] => [(k, v)]
  | (k', v') :: rest =>
      if String.eqb k k' then (k, v) :: rest else (k', v') :: dict_set k v rest
  end.

(** The name Python prints for the type of a value. *)
Definition type_name (v : json) : string :=
  match v with
  | JNull => "NoneType"
  | JBool _ => "bool"
  | JInt _ => "int"
  | JFloat _ => "float"
  | JStr _ => "str"
  | JArr _ => "list"
  | JObj _ => "dict"
  end.

(** [v[k]] for a string key [k]. *)
Definition subscript (v : json) (k : string) : outcome json :=
  match v with
  | JObj kvs =>
      match dict_get k kvs with
      | Some x => Ret x
      | None => Raise (Exn KeyError ("'" +:+ k +:+ "'"))
      end
  | JStr _ =>
      Raise (Exn TypeError "string indices must be integers, not 'str'")
  | JArr _ =>
      Raise (Exn TypeError "list indices must be integers or slices, not str")
  | _ =>
      Raise (Exn TypeError ("'" +:+ type_name v +:+ "' object is not subscriptable"))
  end.

(** [repr(s)] of a string: in single quotes, or in double quotes when the
    string has a single quote and no double one; the backslash and the
    quote in use are escaped, tab, line feed and carriage return are
    written with their letter, and the other characters that are not
    printable (the control characters, the no-break space and the soft
    hyphen) with their two hexadecimal digits. *)
Definition backslash : ascii := ascii_of_nat 92.
Definition single_quote : ascii := ascii_of_nat 39.
Definition double_quote : ascii := ascii_of_nat 34.

Definition hex_digit (n : nat) : ascii :=
  ascii_of_nat (if (n <? 10)%nat then 48 + n else 87 + n).

Definition printable (c : ascii) : bool :=
  let n := nat_of_ascii c in
  (((32 <=? n) && (n <=? 126)) || ((161 <=? n) && (n <=? 172)) ||
   (174 <=? n))%nat.

Definition repr_char (quote c : ascii) : string :=
  let n := nat_of_ascii c in
  if Ascii.eqb c backslash then String backslash (String backslash "")
  else if Ascii.eqb c quote then String backslash (String quote "")
  else if (n =? 9)%nat then String backslash "t"
  else if (n =? 10)%nat then String backslash "n"
  else if (n =? 13)%nat then String backslash "r"
  else if printable c then String c ""
  else String backslash
         (String "x" (String (hex_digit (n / 16))
                        (String (hex_digit (n mod 16)) ""))).

Definition has_char (c : ascii) (s : string) : bool :=
  existsb (Ascii.eqb c) (list_ascii_of_string s).

Definition repr_str (s : string) : string :=
  let quote :=
    if has_char single_quote s && negb (has_char double_quote s)
    then double_quote else single_quote in
  String quote
    (String.concat "" (map (repr_char quote) (list_ascii_of_string s))
     +:+ String quote "").

(** [v.get(k, dflt)]: only dicts have the method. *)
Definition py_get (v : json) (k : string) (dflt : json) : outcome json :=
  match v with
  | JObj kvs => Ret (default dflt (dict_get k kvs))
  | _ =>
      Raise (Exn AttributeError
               ("'" +:+ type_name v +:+ "' object has no attribute 'get'"))
  end.

(** Truth value of a Python object, as [if x:] and [not x] test it. *)
Definition float_is_zero (f : spec_float) : bool :=
  match f with S754_zero _ => true | _ => false end.

Definition truthy (v : json) : bool :=
  match v with
  | JNull => false
  | JBool b => b
  | JInt n => negb (n =? 0)%Z
  | JFloat f => negb (float_is_zero f)
  | JStr s => negb (String.eqb s "")
  | JArr xs => match xs with [] => false | _ => true end
  | JObj kvs => match kvs with [] => false | _ => true end
  end.

(** Python's [==].  Booleans, integers and floats compare by numeric value
    ([True == 1 == 1.0]); a NaN equals nothing; lists compare element by
    element; dicts compare as maps, whatever the insertion order. *)
Definition float_eq (f g : spec_float) : bool :=
  match f, g with
  | S754_zero _, S754_zero _ => true
  | S754_infinity s, S754_infinity t => Bool.eqb s t
  | S754_finite s m e, S754_finite t n e' =>
      Bool.eqb s t &&
      (let lo := Z.min e e' in
       (Z.pos m * 2 ^ (e - lo) =? Z.pos n * 2 ^ (e' - lo))%Z)
  | _, _ => false
  end.

Definition int_float_eq (z : Z) (f : spec_float) : bool :=
  match f with
  | S754_zero _ => (z =? 0)%Z
  | S754_finite s m e =>
      let v := if s then Z.neg m else Z.pos m in
      if (0 <=? e)%Z then (z =? v * 2 ^ e)%Z else (z * 2 ^ (- e) =? v)%Z
  | _ => false
  end.

Inductive number : Type := NumInt (z : Z) | NumFloat (f : spec_float).

Definition as_number (v : json) : option number :=
  match v with
  | JBool b => Some (NumInt (if b then 1 else 0))
  | JInt z => Some (NumInt z)
  | JFloat f => Some (NumFloat f)
  | _ => None
  end.

Definition number_eq (a b : number) : bool :=
  match a, b with
  | NumInt x, NumInt y => (x =? y)%Z
  | NumInt x, NumFloat g => int_float_eq x g
  | NumFloat f, NumInt y => int_float_eq y f
  | NumFloat f, NumFloat g => float_eq f g
  end.

Fixpoint py_eq (a b : json) {struct a} : bool :=
  match a with
  | JNull => match b with JNull => true | _ => false end
  | JStr s => match b with JStr t => String.eqb s t | _ => false end
  | JBool _ | JInt _ | JFloat _ =>
      match as_number a, as_number b with
      | Some x, Some y => number_eq x y
      | _, _ => false
      end
  | JArr xs =>
      match b with
      | JArr ys =>
          (fix all2 (xs ys : list json) {struct xs} : bool :=
             match xs, ys with
             | [], [] => true
             | x :: xs', y :: ys' => py_eq x y && all2 xs' ys'
             | _, _ => false
             end) xs ys
      | _ => false
      end
  | JObj kvs =>
      match b with
      | JObj kws =>
          (length kvs =? length kws)%nat &&
          (fix sub (kvs : list (string * json)) {struct kvs} : bool :=
             match kvs with
             | [] => true
             | (k, v) :: kvs' =>
                 match dict_get k kws with
                 | Some w => py_eq v w
                 | None => false
                 end && sub kvs'
             end) kvs
      | _ => false
      end
  end.

(** [x in l] for a list [l].  (Python also accepts an element that is the
    very same object as [x]; values carry no identity here, which only
    matters for a NaN.) *)
Definition py_in (x : json) (l : list json) : bool := existsb (py_eq x) l.

End Py.
Export Py.

(** ** What the program calls but does not define *)

Module Env.

(** A request as [urllib.request.Request(url, headers=...)] builds it. *)
Record request : Type := Request {
  req_url : string;
  req_headers : list (string * string)
}.

(** What [urlopen(req)] followed by [response.read().decode()] can do:
    raise [HTTPError] (with its code, reason and header lookup
    [e.headers.get]), raise a plain [URLError], raise something else, or
    hand over the text of the body. *)
Inductive reply : Type :=
| HTTPError (code : Z) (reason : string) (headers : string -> option string)
| URLError (reason : string)
| Failure (e : exn)
| Body (text : string).

(** Library functions and the outside world: [str(x)] as an f-string
    applies it, [json.dumps(x)], [json.loads(s)] (a value, or the message
    of its [JSONDecodeError]), [json.dumps(x, indent=2)],
    [yaml.dump(x, allow_unicode=True)], [int(x)] for a header value that
    may be [None], and [str(datetime.fromtimestamp(n))].  [urlopen] is
    indexed by the number of requests already made, so the network may
    answer the same request differently each time. *)
Record env : Type := {
  py_str : json -> string;
  json_dumps : json -> string;
  json_loads : string -> string + json;
  json_dumps_indent2 : json -> string;
  yaml_dump : json -> string;
  py_int : option string -> exn + Z;
  fromtimestamp : Z -> exn + string;
  urlopen : nat -> request -> reply
}.

Definition loads (E : env) (s : string) : outcome json :=
  match json_loads E s with
  | inl msg => Raise (Exn JSONDecodeError msg)
  | inr v => Ret v
  end.

(** One row of the table [activities (username, data, timestamp)].  The
    timestamp is counted in seconds; [datetime('now')] reads the clock. *)
Record row : Type := Row {
  row_username : string;
  row_data : string;
  row_timestamp : Z
}.

(** The state a run can observe or change: the cache table, the clock, the
    lines printed so far, the requests sent so far, and the event dicts
    that are reached through references. *)
Record world : Type := World {
  db : list row;
  clock : Z;
  stdout : list string;
  net_log : list request;
  heap : gmap nat json
}.

Definition set_db (rows : list row) (w : world) : world :=
  World rows (clock w) (stdout w) (net_log w) (heap w).
Definition set_clock (t : Z) (w : world) : world :=
  World (db w) t (stdout w) (net_log w) (heap w).
Definition set_stdout (out : list string) (w : world) : world :=
  World (db w) (clock w) out (net_log w) (heap w).
Definition set_net_log (log : list request) (w : world) : world :=
  World (db w) (clock w) (stdout w) log (heap w).
Definition set_heap (h : gmap nat json) (w : world) : world :=
  World (db w) (clock w) (stdout w) (net_log w) h.

(** Statements: state passing over [world], with the three ways out. *)
Definition prog (A : Type) : Type := world -> outcome A * world.

#[global] Instance prog_ret : MRet prog := fun A a w => (Ret a, w).
#[global] Instance prog_bind : MBind prog := fun A B f m w =>
  match m w with
  | (Ret a, w') => f a w'
  | (Raise e, w') => (Raise e, w')
  | (Exit c, w') => (Exit c, w')
  end.

Definition lift {A : Type} (o : outcome A) : prog A := fun w => (o, w).
Definition raise {A : Type} (e : exn) : prog A := fun w => (Raise e, w).
Definition sys_exit {A : Type} (code : Z) : prog A := fun w => (Exit code, w).
Definition print (line : string) : prog unit :=
  fun w => (Ret tt, set_stdout (stdout w ++ [line]) w).

(** [try: body except Exception as e: handler e] *)
Definition try_except {A : Type} (body : prog A) (handler : exn -> prog A)
  : prog A :=
  fun w =>
    match body w with
    | (Raise e, w') => handler e w'
    | r => r
    end.

(** Sending a request: the log grows by one entry. *)
Definition send (E : env) (req : request) : prog reply :=
  fun w => (Ret (urlopen E (length (net_log w)) req),
            set_net_log (net_log w ++ [req]) w).

(** Decimal text of an integer, as an f-string renders it. *)
Definition Z_to_string (n : Z) : string := NilZero.string_of_int (Z.to_int n).

End Env.
Export Env.

(** ** Cache store *)

Module Cache.

(** [timestamp >= datetime('now', '-10 minutes')] *)
Definition fresh (now : Z) (r : row) : bool := (now - 600 <=? row_timestamp r)%Z.

(** [SELECT data FROM activities WHERE username = ? AND timestamp >= ...] *)
Definition select_fresh (user : string) (now : Z) (rows : list row) : list row :=
  List.filter (fun r => String.eqb (row_username r) user && fresh now r) rows.

(** [fetchone()] takes the first selected row; no row gives [None]. *)
Definition _get_cached_activities (E : env) (user : string) : prog json :=
  fun w =>
    match select_fresh user (clock w) (db w) with
    | r :: _ => lift (loads E (row_data r)) w
    | [] => (Ret JNull, w)
    end.

(** [DELETE FROM activities WHERE username = ?] *)
Definition delete_user (user : string) (rows : list row) : list row :=
  List.filter (fun r => negb (String.eqb (row_username r) user)) rows.

(** [DELETE ...] then [INSERT INTO activities VALUES (?, ?, datetime("now"))] *)
Definition _cache_activities (E : env) (user : string) (data : json)
  : prog unit :=
  fun w =>
    let deleted := delete_user user (db w) in
    (Ret tt, set_db (deleted ++ [Row user (json_dumps E data) (clock w)]) w).

End Cache.

(** ** Activity fetcher *)

Module Fetch.
Import Cache.

(** [if token:] holds for a non-empty string. *)
Definition auth_headers (token : option string) : list (string * string) :=
  match token with
  | Some t => if String.eqb t "" then [] else [("Authorization", "token " +:+ t)]
  | None => []
  end.

Definition events_request (user : string) (token : option string) : request :=
  Request ("https://api.github.com/users/" +:+ user +:+ "/events")
          (("User-Agent", "GitHub-Activity-CLI/2.0") :: auth_headers token).

(** The two [except] clauses around the request. *)
Definition on_http_error (E : env) (code : Z) (reason : string)
    (headers : string -> option string) : prog json :=
  print ("API Error: " +:+ Z_to_string code +:+ " " +:+ reason);;
  (if bool_decide (headers "X-RateLimit-Remaining" = Some "0")
   then epoch ← lift (checked (py_int E (headers "X-RateLimit-Reset")));
        reset_time ← lift (checked (fromtimestamp E epoch));
        print ("Rate limit exceeded. Reset at " +:+ reset_time)
   else mret tt);;
  sys_exit 1.

Definition on_url_error (reason : string) : prog json :=
  print ("Connection Error: " +:+ reason);;
  sys_exit 1.

(** The request and what follows it, from [try] on. *)
Definition request_events (E : env) (user : string) (token : option string)
    (use_cache : bool) : prog json :=
  r ← send E (events_request user token);
  match r with
  | Body text =>
      data ← lift (loads E text);
      (if use_cache then _cache_activities E user data else mret tt);;
      mret data
  | HTTPError code reason headers => on_http_error E code reason headers
  | URLError reason => on_url_error reason
  | Failure e => raise e
  end.

Definition fetch_activities (E : env) (user : string) (token : option string)
    (use_cache : bool) : prog json :=
  hit ← (if use_cache
         then cached ← _get_cached_activities E user;
              mret (if truthy cached then Some cached else None)
         else mret None);
  match hit with
  | Some cached => mret cached
  | None => request_events E user token use_cache
  end.

End Fetch.

(** ** Filter stage *)

Module Filter.

(** The [filters] dict: [None] stands for a key that is absent or bound to
    [None] (what argparse leaves when the flag is not given). *)
Record filter_spec : Type := FilterSpec {
  types : option (list json);
  repos : option (list json)
}.

(** [not filters.get(k) or x in filters[k]] *)
Definition dimension_match (allowed : option (list json)) (x : json) : bool :=
  match allowed with
  | None => true
  | Some [] => true
  | Some l => py_in x l
  end.

(** The body of the loop of [filter_activities], up to the [if]. *)
Definition activity_match (filters : filter_spec) (activity : json)
  : outcome bool :=
  event_type ← py_get activity "type" JNull;
  repo_obj ← py_get activity "repo" (JObj []);
  repo ← py_get repo_obj "name" (JStr "");
  let type_match := dimension_match (types filters) event_type in
  let repo_match := dimension_match (repos filters) repo in
  mret (type_match && repo_match).

Fixpoint filter_loop (activities : list json) (filters : filter_spec)
    (filtered : list json) : outcome (list json) :=
  match activities with
  | [] => mret filtered
  | activity :: rest =>
      keep ← activity_match filters activity;
      filter_loop rest filters
        (if keep : bool then filtered ++ [activity] else filtered)
  end.

Definition filter_activities (activities : list json) (filters : filter_spec)
  : outcome (list json) :=
  filter_loop activities filters [].

End Filter.

(** ** Enrichment stage *)

Module Enrich.

(** [urlopen(req)] and [response.read().decode()] as one step that returns
    the text of the body or raises; [str(e)] of the two urllib errors is the
    text urllib gives them. *)
Definition urlopen_text (E : env) (req : request) : prog string :=
  r ← send E req;
  match r with
  | Body text => mret text
  | HTTPError code reason _ =>
      raise (Exn OtherError
               ("HTTP Error " +:+ Z_to_string code +:+ ": " +:+ reason))
  | URLError reason =>
      raise (Exn OtherError ("<urlopen error " +:+ reason +:+ ">"))
  | Failure e => raise e
  end.

(** The object a reference points to.  Every reference the program holds
    is live; the [None] branch is there to make the function total. *)
Definition deref (a : nat) : prog json :=
  fun w =>
    match heap w !! a with
    | Some v => (Ret v, w)
    | None => (Raise (Exn OtherError "dangling reference"), w)
    end.

(** [obj[k] = v], in place. *)
Definition setitem (a : nat) (k : string) (v : json) : prog unit :=
  fun w =>
    match heap w !! a with
    | Some (JObj kvs) =>
        (Ret tt, set_heap (<[a := JObj (dict_set k v kvs)]> (heap w)) w)
    | Some other =>
        (Raise (Exn TypeError
                  ("'" +:+ type_name other +:+
                   "' object does not support item assignment")), w)
    | None => (Raise (Exn OtherError "dangling reference"), w)
    end.

Definition repo_request (E : env) (name : json) : request :=
  Request ("https://api.github.com/repos/" +:+ py_str E name)
          [("User-Agent", "GitHub-Activity-CLI")].

(** [activity] is the reference bound to the parameter; the function
    returns that same reference. *)
Definition enrich_activity (E : env) (activity : nat) : prog nat :=
  event ← deref activity;
  repo ← lift (subscript event "repo");
  name ← lift (subscript repo "name");
  try_except
    (text ← urlopen_text E (repo_request E name);
     repo_data ← lift (loads E text);
     stars ← lift (py_get repo_data "stargazers_count" JNull);
     forks ← lift (py_get repo_data "forks_count" JNull);
     description ← lift (py_get repo_data "description" JNull);
     setitem activity "repo_details"
       (JObj [("stars", stars); ("forks", forks);
              ("description", description)]))
    (fun e => setitem activity "repo_details" (JObj [("error", JStr (exn_msg e))]));;
  mret activity.

(** A comprehension [[f(a) for a in l]]. *)
Fixpoint for_each {A B : Type} (f : A -> prog B) (l : list A) : prog (list B) :=
  match l with
  | [] => mret []
  | a :: rest =>
      b ← f a;
      bs ← for_each f rest;
      mret (b :: bs)
  end.

(** [[github.enrich_activity(a) for a in filtered]]: the dicts of
    [filtered] are distinct objects, addressed here by their position; the
    new list holds the references the calls return, read at the end. *)
Definition enrich_all (E : env) (filtered : list json) : prog (list json) :=
  (fun w => (Ret tt, set_heap (map_seq 0 filtered) w)) ;;
  refs ← for_each (enrich_activity E) (seq 0 (length filtered));
  for_each deref refs.

End Enrich.

(** ** Timestamps *)

Module Datetime.

Record datetime : Type := Datetime {
  year : Z; month : Z; day : Z; hour : Z; minute : Z; second : Z
}.

(** The value of a decimal digit, what [\d] matches and [int] converts:
    of the characters below 256 the decimal digits are [0] to [9]. *)
Definition digit (c : ascii) : option Z :=
  let n := Z.of_nat (nat_of_ascii c) in
  if ((48 <=? n) && (n <=? 57))%Z then Some (n - 48)%Z else None.

(** One alternative of the regular expression of a directive: it reads a
    value off the front of the input or fails. *)
Definition alternative : Type := string -> option (Z * string).

Definition between (lo hi : Z) (x : Z) : bool := ((lo <=? x) && (x <=? hi))%Z.

(** [[a-b][c-d]] *)
Definition two (lo1 hi1 lo2 hi2 : Z) : alternative := fun s =>
  match s with
  | String a (String b rest) =>
      match digit a, digit b with
      | Some x, Some y =>
          if between lo1 hi1 x && between lo2 hi2 y
          then Some (10 * x + y, rest)%Z else None
      | _, _ => None
      end
  | _ => None
  end.

(** [[a-b]] *)
Definition one (lo hi : Z) : alternative := fun s =>
  match s with
  | String a rest =>
      match digit a with
      | Some x => if between lo hi x then Some (x, rest) else None
      | None => None
      end
  | _ => None
  end.

(** [ [a-b]]: a space, then one digit. *)
Definition space_one (lo hi : Z) : alternative := fun s =>
  match s with
  | String " " rest => one lo hi rest
  | _ => None
  end.

(** [\d\d\d\d] *)
Definition four_digits : alternative := fun s =>
  match s with
  | String a (String b (String c (String d rest))) =>
      match digit a, digit b, digit c, digit d with
      | Some w, Some x, Some y, Some z =>
          Some (1000 * w + 100 * x + 10 * y + z, rest)%Z
      | _, _, _, _ => None
      end
  | _ => None
  end.

(** The regular expressions [_strptime] gives the directives, alternatives
    in the order the expression lists them:
    [%Y] is [\d\d\d\d], [%m] is [1[0-2]|0[1-9]|[1-9]],
    [%d] is [3[0-1]|[1-2]\d|0[1-9]|[1-9]| [1-9]],
    [%H] is [2[0-3]|[0-1]\d|\d], [%M] is [[0-5]\d|\d] and
    [%S] is [6[0-1]|[0-5]\d|\d]: but for the year, the leading zero is
    optional. *)
Definition re_Y : list alternative := [four_digits].
Definition re_m : list alternative := [two 1 1 0 2; two 0 0 1 9; one 1 9].
Definition re_d : list alternative :=
  [two 3 3 0 1; two 1 2 0 9; two 0 0 1 9; one 1 9; space_one 1 9].
Definition re_H : list alternative := [two 2 2 0 3; two 0 1 0 9; one 0 9].
Definition re_M : list alternative := [two 0 5 0 9; one 0 9].
Definition re_S : list alternative := [two 6 6 0 1; two 0 5 0 9; one 0 9].

Inductive item : Type :=
| Lit (c : ascii)
| Directive (alts : list alternative).

(** Literal characters match whatever their case (the expression is
    compiled with [IGNORECASE]). *)
Definition lower (c : ascii) : ascii :=
  let n := nat_of_ascii c in
  if ((65 <=? n) && (n <=? 90))%nat then ascii_of_nat (n + 32) else c.

Definition same_letter (c d : ascii) : bool := Ascii.eqb (lower c) (lower d).

(** Matching the items in sequence from the start of the input, the way a
    backtracking matcher does: the first alternative that lets the rest of
    the pattern match wins.  The result is the values read and the input
    left over. *)
Fixpoint match_items (items : list item) (s : string) (acc : list Z)
  : option (list Z * string) :=
  match items with
  | [] => Some (acc, s)
  | Lit c :: items' =>
      match s with
      | String d rest =>
          if same_letter c d then match_items items' rest acc else None
      | EmptyString => None
      end
  | Directive alts :: items' =>
      (fix try (alts : list alternative) : option (list Z * string) :=
         match alts with
         | [] => None
         | alt :: alts' =>
             match alt s with
             | Some (v, rest) =>
                 match match_items items' rest (acc ++ [v]) with
                 | Some r => Some r
                 | None => try alts'
                 end
             | None => try alts'
             end
         end) alts
  end.

(** ["%Y-%m-%dT%H:%M:%SZ"] *)
Definition table_format : list item :=
  [Directive re_Y; Lit "-"; Directive re_m; Lit "-"; Directive re_d; Lit "T";
   Directive re_H; Lit ":"; Directive re_M; Lit ":"; Directive re_S; Lit "Z"].

Definition is_leap (y : Z) : bool :=
  ((y mod 4 =? 0) && (negb (y mod 100 =? 0) || (y mod 400 =? 0)))%Z.

Definition days_in_month (y m : Z) : Z :=
  if (m =? 2)%Z then (if is_leap y then 29 else 28)
  else if ((m =? 4) || (m =? 6) || (m =? 9) || (m =? 11))%Z then 30 else 31.

Definition value_error {A : Type} (msg : string) : outcome A :=
  Raise (Exn ValueError msg).

(** The values read, in the order of the directives of the format.  A
    field no directive sets keeps the value [_strptime] starts with (the
    year 1900, month and day 1, midnight); the format here sets all six.
    [date] and [datetime] check the values: years start at 1, the day
    has to exist in the month, and a [datetime] has no second 60. *)
Definition checked_fields (fields : list Z) : outcome datetime :=
  let y := List.nth 0 fields 1900 in
  let mo := List.nth 1 fields 1 in
  let d := List.nth 2 fields 1 in
  let h := List.nth 3 fields 0 in
  let mi := List.nth 4 fields 0 in
  let sec := List.nth 5 fields 0 in
  if (y <? 1)%Z
  then value_error ("year " +:+ Z_to_string y +:+ " is out of range")
  else if (days_in_month y mo <? d)%Z
  then value_error "day is out of range for month"
  else if (59 <? sec)%Z then value_error "second must be in 0..59"
  else Ret (Datetime y mo d h mi sec).

(** [datetime.strptime(s, "%Y-%m-%dT%H:%M:%SZ")].  The expression has to
    match at the start of the input and use all of it up. *)
Definition strptime (s : string) : outcome datetime :=
  match match_items table_format s [] with
  | None =>
      value_error ("time data " +:+ repr_str s +:+
                   " does not match format '%Y-%m-%dT%H:%M:%SZ'")
  | Some (fields, rest) =>
      if String.eqb rest "" then checked_fields fields
      else value_error ("unconverted data remains: " +:+ rest)
  end.

(** The argument of [strptime] has to be a [str]; the message names the
    type of another argument, and [None] by its own name. *)
Definition strptime_value (v : json) : outcome datetime :=
  match v with
  | JStr s => strptime s
  | JNull => Raise (Exn TypeError "strptime() argument 1 must be str, not None")
  | _ =>
      Raise (Exn TypeError
               ("strptime() argument 1 must be str, not " +:+ type_name v))
  end.

Definition digit_char (d : Z) : ascii := ascii_of_nat (48 + Z.to_nat d).

Definition pad2 (n : Z) : string :=
  String (digit_char (n / 10)) (String (digit_char (n mod 10)) "").

(** [dt.strftime("%Y-%m-%d %H:%M")]: month, day, hour and minute are
    padded to two digits; the year is written as the number it is, so a
    year below 1000 comes out with fewer than four digits. *)
Definition strftime (dt : datetime) : string :=
  Z_to_string (year dt) +:+ "-" +:+ pad2 (month dt) +:+ "-" +:+
  pad2 (day dt) +:+ " " +:+ pad2 (hour dt) +:+ ":" +:+ pad2 (minute dt).

End Datetime.

(** ** Formatter *)

Module Format.
Import Datetime.

Definition esc : string := String "027" "".
Definition newline : string := String "010" "".

(** The dict [colors] of [_format_text]. *)
Definition colors : list (string * string) :=
  [("PushEvent", esc +:+ "[92m");
   ("PullRequestEvent", esc +:+ "[94m");
   ("IssuesEvent", esc +:+ "[93m");
   ("reset", esc +:+ "[0m")].

(** [k in colors]: the key is hashed first, and lists and dicts have no
    hash; a key that is no string equals none of the keys. *)
Definition in_colors (k : json) : outcome bool :=
  match k with
  | JStr s => Ret (bool_decide (is_Some (dict_get s colors)))
  | JArr _ | JObj _ =>
      Raise (Exn TypeError ("unhashable type: '" +:+ type_name k +:+ "'"))
  | _ => Ret false
  end.

(** [colors[k]] *)
Definition colors_at (k : json) : outcome string :=
  match k with
  | JStr s =>
      match dict_get s colors with
      | Some c => Ret c
      | None => Raise (Exn KeyError ("'" +:+ s +:+ "'"))
      end
  | JArr _ | JObj _ =>
      Raise (Exn TypeError ("unhashable type: '" +:+ type_name k +:+ "'"))
  | _ => Raise (Exn KeyError "")
  end.

(** The body of the loop of [_format_text]: the line of one event. *)
Definition text_line (E : env) (color : bool) (act : json) : outcome string :=
  ty ← subscript act "type";
  message ← py_get act "message" (JStr "");
  let line := "- " +:+ py_str E ty +:+ ": " +:+ py_str E message in
  coloured ← (if color then ty' ← subscript act "type"; in_colors ty'
              else mret false);
  if coloured : bool
  then ty' ← subscript act "type";
       c ← colors_at ty';
       reset ← colors_at (JStr "reset");
       mret (c +:+ line +:+ reset)
  else mret line.

Fixpoint text_loop (E : env) (color : bool) (activities : list json)
    (output : list string) : outcome (list string) :=
  match activities with
  | [] => mret output
  | act :: rest =>
      line ← text_line E color act;
      text_loop E color rest (output ++ [line])
  end.

Definition _format_text (E : env) (activities : list json) (color : bool)
  : outcome string :=
  output ← text_loop E color activities [];
  mret (String.concat newline output).

Definition table_header : string :=
  newline +:+ "| Date | Type | Repository | Details |".
Definition table_separator : string :=
  "|------|------|------------|---------|".

(** The date cell of a row. *)
Definition date_cell (act : json) : outcome string :=
  created_at ← subscript act "created_at";
  dt ← strptime_value created_at;
  mret (strftime dt).

(** The body of the loop of [_format_table]: the row of one event. *)
Definition table_row (E : env) (act : json) : outcome string :=
  date ← date_cell act;
  ty ← subscript act "type";
  repo ← subscript act "repo";
  name ← subscript repo "name";
  message ← py_get act "message" (JStr "");
  mret ("| " +:+ date +:+ " | " +:+ py_str E ty +:+ " | " +:+ py_str E name
        +:+ " | " +:+ py_str E message +:+ " |").

Fixpoint table_loop (E : env) (activities : list json) (table : list string)
  : outcome (list string) :=
  match activities with
  | [] => mret table
  | act :: rest =>
      row ← table_row E act;
      table_loop E rest (table ++ [row])
  end.

Definition _format_table (E : env) (activities : list json) (color : bool)
  : outcome string :=
  table ← table_loop E activities [table_header; table_separator];
  mret (String.concat newline table).

Inductive output_format : Type := FText | FJson | FYaml | FTable.

Definition format_output (E : env) (activities : list json)
    (fmt : output_format) (color : bool) : outcome string :=
  match fmt with
  | FJson => Ret (json_dumps_indent2 E (JArr activities))
  | FYaml => Ret (yaml_dump E (JArr activities))
  | FTable => _format_table E activities color
  | FText => _format_text E activities color
  end.

End Format.

(** ** Command-line driver *)

Module Main.
Import Fetch Filter Enrich Format.

(** The namespace argparse returns. *)
Record args : Type := Args {
  arg_username : string;
  arg_limit : Z;
  arg_token : option string;
  arg_format : output_format;
  arg_types : option (list string);
  arg_repos : option (list string);
  arg_no_cache : bool;
  arg_color : bool;
  arg_enrich : bool
}.

(** [l[:n]]: a negative [n] counts from the end. *)
Definition slice_to {A : Type} (l : list A) (n : Z) : list A :=
  if (n <? 0)%Z then firstn (Z.to_nat (Z.of_nat (length l) + n)) l
  else firstn (Z.to_nat n) l.

(** What [for x in v] goes through. *)
Definition py_iter (v : json) : outcome (list json) :=
  match v with
  | JArr xs => Ret xs
  | JObj kvs => Ret (map (fun kv => JStr (fst kv)) kvs)
  | JStr s => Ret (map (fun c => JStr (String c "")) (list_ascii_of_string s))
  | _ =>
      Raise (Exn TypeError ("'" +:+ type_name v +:+ "' object is not iterable"))
  end.

(** The dict literal passed to [filter_activities]. *)
Definition filters_of (a : args) : filter_spec :=
  FilterSpec (option_map (map JStr) (arg_types a))
             (option_map (map JStr) (arg_repos a)).

(** [github.filter_activities(activities, {...})[:args.limit]] *)
Definition select (activities : list json) (filters : filter_spec) (limit : Z)
  : outcome (list json) :=
  filtered ← filter_activities activities filters;
  mret (slice_to filtered limit).

(** The [try] block of [main]. *)
Definition pipeline (E : env) (a : args) : prog unit :=
  activities ← fetch_activities E (arg_username a) (arg_token a) (arg_no_cache a);
  events ← lift (py_iter activities);
  filtered ← lift (select events (filters_of a) (arg_limit a));
  filtered ← (if arg_enrich a then enrich_all E filtered else mret filtered);
  output ← lift (format_output E filtered (arg_format a) (arg_color a));
  print output.

(** The two [except] clauses of [main]; [JSONDecodeError] comes first. *)
Definition on_exception (e : exn) : prog unit :=
  match exn_cls e with
  | JSONDecodeError => print "Error processing API response";; sys_exit 1
  | _ => print ("Unexpected error: " +:+ exn_msg e);; sys_exit 1
  end.

(** [CREATE TABLE IF NOT EXISTS] leaves the rows as they are.  The
    database file is taken to open: a run in which [sqlite3.connect] fails
    is not among the runs modelled. *)
Definition _init_cache : prog unit := mret tt.

(** [main] from the point where [parse_args] has returned the namespace
    [a]: the constructor, then the [try] block with its handlers.  A
    command line that [parse_args] refuses never gets here. *)
Definition main (E : env) (a : args) : prog unit :=
  _init_cache;;
  try_except (pipeline E a) on_exception.

(** The exit status of the process and the world it leaves. *)
Definition run (E : env) (a : args) (w : world) : Z * world :=
  match main E a w with
  | (Ret _, w') => (0, w')
  | (Exit code, w') => (code, w')
  | (Raise _, w') => (1, w')
  end.

End Main.

(** ** The words of the specification *)

Module Spec.
Import Filter.

(** The [type] and the [repo.name] of an event; an event without the key
    counts as having type [None] and the empty repository name. *)
Definition event_type (ev : json) : json :=
  match ev with
  | JObj kvs => default JNull (dict_get "type" kvs)
  | _ => JNull
  end.

Definition repo_name (ev : json) : json :=
  match ev with
  | JObj kvs =>
      match dict_get "repo" kvs with
      | Some (JObj r) => default (JStr "") (dict_get "name" r)
      | _ => JStr ""
      end
  | _ => JStr ""
  end.

(** An event record: a dict whose [repo], where present, is a dict too. *)
Definition is_record (ev : json) : Prop :=
  match ev with
  | JObj kvs =>
      match dict_get "repo" kvs with
      | None | Some (JObj _) => True
      | Some _ => False
      end
  | _ => False
  end.

(** "The set is absent or empty, or the value is in it." *)
Definition allows (set : option (list json)) (x : json) : Prop :=
  match set with
  | None => True
  | Some l => l = [] \/ py_in x l = true
  end.

(** "Keep the event iff its type is allowed and its repo.name is allowed." *)
Definition keeps (filters : filter_spec) (ev : json) : Prop :=
  allows (types filters) (event_type ev) /\
  allows (repos filters) (repo_name ev).

#[global] Instance allows_dec set x : Decision (allows set x).
Proof.
  destruct set as [l|]; unfold allows.
  - destruct l as [|y l]; [left; by left|].
    destruct (py_in x (y :: l)) eqn:Hin.
    + left; by right.
    + right; intros [?|?]; congruence.
  - left; exact I.
Defined.

#[global] Instance keeps_dec filters ev : Decision (keeps filters ev).
Proof. unfold keeps. apply _. Defined.

Definition lacks_type (ev : json) : Prop :=
  exists kvs, ev = JObj kvs /\ dict_get "type" kvs = None.

Definition lacks_repo_name (ev : json) : Prop :=
  exists kvs, ev = JObj kvs /\
    (dict_get "repo" kvs = None \/
     exists r, dict_get "repo" kvs = Some (JObj r) /\ dict_get "name" r = None).

(** The primary fetch goes to the network: caching is off, or the cache
    read gives nothing that counts as a hit. *)
Definition reaches_network (E : env) (user : string) (use_cache : bool)
    (w : world) : Prop :=
  use_cache = false \/
  exists cached,
    Cache._get_cached_activities E user w = (Ret cached, w) /\
    truthy cached = false.

(** The pattern [YYYY-MM-DDTHH:MM:SSZ] read to the letter: twenty
    characters, digits where the pattern has letters to fill in, and the
    separators as written.  [strict_fields] gives the six numbers. *)
Fixpoint number (cs : list ascii) (acc : Z) : option Z :=
  match cs with
  | [] => Some acc
  | c :: cs' =>
      match Datetime.digit c with
      | Some d => number cs' (10 * acc + d)%Z
      | None => None
      end
  end.



(** The six numbers name a date that exists and a time of the day. *)
Definition valid (dt : Datetime.datetime) : Prop :=
  (1 <= Datetime.year dt)%Z /\
  (1 <= Datetime.month dt <= 12)%Z /\
  (1 <= Datetime.day dt <=
     Datetime.days_in_month (Datetime.year dt) (Datetime.month dt))%Z /\
  (Datetime.hour dt <= 23)%Z /\
  (Datetime.minute dt <= 59)%Z /\
  (Datetime.second dt <= 59)%Z.




(** The time stamps made for the format [%Y-%m-%dT%H:%M:%SZ]: a year of
    four digits, then month, day, hour, minute and second of one or two
    digits each (the day also as a space and one digit), between them the
    separators of the format with the letters in either case, and the
    six numbers name a date that exists and a time of the day. *)
Definition digits (n : nat) (s : string) (v : Z) : Prop :=
  String.length s = n /\ number (list_ascii_of_string s) 0 = Some v.

Definition numeral (s : string) (v : Z) : Prop := digits 1 s v \/ digits 2 s v.

Definition day_numeral (s : string) (v : Z) : Prop :=
  numeral s v \/ exists s', s = String " " s' /\ digits 1 s' v.

Definition accepted (s : string) (dt : Datetime.datetime) : Prop :=
  exists ys mos ds hs mis ss t z,
    s = ys +:+ "-" +:+ mos +:+ "-" +:+ ds +:+
        String t (hs +:+ ":" +:+ mis +:+ ":" +:+ ss +:+ String z "") /\
    (t = "T" \/ t = "t")%char /\ (z = "Z" \/ z = "z")%char /\
    digits 4 ys (Datetime.year dt) /\
    numeral mos (Datetime.month dt) /\
    day_numeral ds (Datetime.day dt) /\
    numeral hs (Datetime.hour dt) /\
    numeral mis (Datetime.minute dt) /\
    numeral ss (Datetime.second dt) /\
    valid dt.





(** The call returns or raises; it does not leave through [sys.exit]. *)
Definition no_exit {A : Type} (o : outcome A) : Prop :=
  forall code, o <> Exit code.

(** The line ["- <type>: <message>"] of text mode, before any colour. *)
Definition plain_line (E : env) (ty message : json) : string :=
  "- " +:+ py_str E ty +:+ ": " +:+ py_str E message.

(** The statement prints nothing and does not leave through [sys.exit]. *)
Definition quiet_no_exit {A : Type} (m : prog A) : Prop :=
  forall w, stdout (m w).2 = stdout w /\ forall code, (m w).1 <> Exit code.

(** The line the handlers of [main] print for an exception. *)
Definition error_line (e : exn) : string :=
  match exn_cls e with
  | JSONDecodeError => "Error processing API response"
  | _ => "Unexpected error: " +:+ exn_msg e
  end.

(** The steps of the [try] block of [main] between the fetch and the
    final [print]: from the fetched value to the text to print. *)
Definition produce (E : env) (a : Main.args) (activities : json) : prog string :=
  events ← lift (Main.py_iter activities);
  filtered ← lift (Main.select events (Main.filters_of a) (Main.arg_limit a));
  filtered ← (if Main.arg_enrich a then Enrich.enrich_all E filtered
              else mret filtered);
  lift (Format.format_output E filtered (Main.arg_format a) (Main.arg_color a)).

(** The event is a dict with a [type]. *)
Definition has_type (ev : json) : Prop :=
  exists kvs ty, ev = JObj kvs /\ dict_get "type" kvs = Some ty.

(** The [message] of an event, the empty string when it has none. *)
Definition event_message (ev : json) : json :=
  match ev with
  | JObj kvs => default (JStr "") (dict_get "message" kvs)
  | _ => JStr ""
  end.

(** The event is a dict whose [type] is a string that is no key of the
    dict of colours. *)
Definition has_plain_type (ev : json) : Prop :=
  exists kvs ty,
    ev = JObj kvs /\ dict_get "type" kvs = Some (JStr ty) /\
    ty ∉ ["PushEvent"; "PullRequestEvent"; "IssuesEvent"; "reset"].

(** The arguments [a] with [--color] set or not. *)
Definition with_color (c : bool) (a : Main.args) : Main.args :=
  Main.Args (Main.arg_username a) (Main.arg_limit a) (Main.arg_token a)
            (Main.arg_format a) (Main.arg_types a) (Main.arg_repos a)
            (Main.arg_no_cache a) c (Main.arg_enrich a).

(** The two shapes of [repo_details]. *)
Definition error_details (msg : string) : json := JObj [("error", JStr msg)].

Definition summary (stars forks description : json) : json :=
  JObj [("stars", stars); ("forks", forks); ("description", description)].

Definition is_error_details (d : json) : Prop := exists msg, d = error_details msg.

Definition is_summary (d : json) : Prop :=
  exists stars forks description, d = summary stars forks description.

(** The event has a [repo.name]: its [repo] is a dict with the key. *)
Definition has_repo_name (ev : json) : Prop :=
  exists kvs r name,
    ev = JObj kvs /\ dict_get "repo" kvs = Some (JObj r) /\
    dict_get "name" r = Some name.

(** The secondary lookup succeeds when the reply is a body that parses to
    a JSON object; every other reply is a failure: an HTTP error, a
    connection error, any other exception, a body that does not parse, a
    body that parses to something else than an object. *)
Definition lookup_succeeds (E : env) (r : reply) (repo_data : list (string * json))
  : Prop :=
  exists text, r = Body text /\ json_loads E text = inr (JObj repo_data).

Definition lookup_fails (E : env) (r : reply) : Prop :=
  forall repo_data, ~ lookup_succeeds E r repo_data.

(** What ends up in [repo_details] for a reply. *)
Definition details_of (E : env) (r : reply) : json :=
  match r with
  | Body text =>
      match json_loads E text with
      | inr (JObj repo_data) =>
          summary (default JNull (dict_get "stargazers_count" repo_data))
                  (default JNull (dict_get "forks_count" repo_data))
                  (default JNull (dict_get "description" repo_data))
      | inr other =>
          error_details
            ("'" +:+ type_name other +:+ "' object has no attribute 'get'")
      | inl msg => error_details msg
      end
  | HTTPError code reason _ =>
      error_details ("HTTP Error " +:+ Z_to_string code +:+ ": " +:+ reason)
  | URLError reason => error_details ("<urlopen error " +:+ reason +:+ ">")
  | Failure e => error_details (exn_msg e)
  end.

(** An event whose [repo] is some value other than a dict has no
    [repo.name] either. *)
Definition lacks_repo_name_value (ev : json) : Prop :=
  exists v, subscript ev "repo" = Ret v /\ forall r, v <> JObj r.

End Spec.

(** ** Sample inputs *)

Module Demo.
Import Filter.

Definition push_event : json :=
  JObj [("type", JStr "PushEvent");
        ("repo", JObj [("name", JStr "a/b")]);
        ("created_at", JStr "2024-01-15T10:30:00Z")].

Definition issues_event : json :=
  JObj [("type", JStr "IssuesEvent");
        ("repo", JObj [("name", JStr "a/b")]);
        ("created_at", JStr "2024-01-16T08:05:59Z")].

(** An event with neither [type] nor [repo]. *)
Definition bare_event : json := JObj [("id", JStr "1")].

(** An event whose [repo] is [null]. *)
Definition null_repo_event : json :=
  JObj [("type", JStr "PushEvent"); ("repo", JNull)].

Definition two_events : list json := [push_event; issues_event].




(** An event whose time stamp is no time stamp. *)
Definition undated_event : json :=
  JObj [("type", JStr "PushEvent");
        ("repo", JObj [("name", JStr "a/b")]);
        ("created_at", JStr "yesterday")].

Definition no_filter : filter_spec := FilterSpec None None.
Definition only_push : filter_spec := FilterSpec (Some [JStr "PushEvent"]) None.

(** Stand-ins for the library functions, good enough for the samples:
    [str] of a scalar, a compact printer for JSON values without escapes,
    a reader that knows the texts of the sample values, [int] of a decimal
    numeral, and a rendering of a time stamp that does not depend on the
    time zone. *)
Definition demo_str (v : json) : string :=
  match v with
  | JStr s => s
  | JNull => "None"
  | JBool true => "True"
  | JBool false => "False"
  | JInt n => Z_to_string n
  | JFloat _ => "<float>"
  | JArr _ => "<list>"
  | JObj _ => "<dict>"
  end.

Definition quote (s : string) : string := String "034" (s +:+ String "034" "").

Fixpoint demo_dumps (v : json) : string :=
  match v with
  | JNull => "null"
  | JBool true => "true"
  | JBool false => "false"
  | JInt n => Z_to_string n
  | JFloat _ => "NaN"
  | JStr s => quote s
  | JArr xs => "[" +:+ String.concat ", " (map demo_dumps xs) +:+ "]"
  | JObj kvs =>
      "{" +:+ String.concat ", "
                (map (fun kv => quote (fst kv) +:+ ": " +:+ demo_dumps (snd kv)) kvs)
      +:+ "}"
  end.

Definition repo_reply : json :=
  JObj [("stargazers_count", JInt 5); ("forks_count", JInt 2);
        ("description", JStr "demo")].

Definition samples : list json :=
  [JArr []; JArr [push_event]; JArr two_events; JObj []; repo_reply;
   JArr [null_repo_event]; JArr [bare_event; push_event];
   JArr [push_event; undated_event]].

Definition demo_loads (s : string) : string + json :=
  match List.find (fun v => String.eqb (demo_dumps v) s) samples with
  | Some v => inr v
  | None => inl "Expecting value: line 1 column 1 (char 0)"
  end.

Fixpoint decimal (s : string) (acc : Z) : option Z :=
  match s with
  | EmptyString => Some acc
  | String c rest =>
      match Datetime.digit c with
      | Some d => decimal rest (10 * acc + d)%Z
      | None => None
      end
  end.

Definition demo_int (x : option string) : exn + Z :=
  match x with
  | None =>
      inl (Exn TypeError
             "int() argument must be a string, a bytes-like object or a real number, not 'NoneType'")
  | Some "" => inl (Exn ValueError "invalid literal for int() with base 10: ''")
  | Some s =>
      match decimal s 0 with
      | Some n => inr n
      | None => inl (Exn ValueError "invalid literal for int() with base 10")
      end
  end.

Definition demo_fromtimestamp (n : Z) : exn + string :=
  inr ("epoch+" +:+ Z_to_string n +:+ "s").

Definition demo_env (net : nat -> request -> reply) : env :=
  {| py_str := demo_str;
     json_dumps := demo_dumps;
     json_loads := demo_loads;
     json_dumps_indent2 := demo_dumps;
     yaml_dump := demo_dumps;
     py_int := demo_int;
     fromtimestamp := demo_fromtimestamp;
     urlopen := net |}.

(** Networks: one that answers every request with the same reply. *)
Definition always (r : reply) : nat -> request -> reply := fun _ _ => r.

Definition empty_world : world := World [] 1000 [] [] ∅.

(** A rate-limited reply, and the arguments of a run without the cache. *)
Definition rate_limit_headers (name : string) : option string :=
  if String.eqb name "X-RateLimit-Remaining" then Some "0"
  else if String.eqb name "X-RateLimit-Reset" then Some "1700000000"
  else None.

Definition rate_limited : reply :=
  HTTPError 403 "rate limit exceeded" rate_limit_headers.

(** A world whose cache holds [data] for the user of the samples, written
    at the present time. *)
Definition cached_world (data : json) : world :=
  World [Row "octocat" (demo_dumps data) 1000] 1000 [] [] ∅.

Definition enrich_args : Main.args :=
  Main.Args "octocat" 10 None Format.FText None None true false true.

Definition table_args : Main.args :=
  Main.Args "octocat" 10 None Format.FTable None None true false false.

Definition watch_event : json :=
  JObj [("type", JStr "WatchEvent"); ("message", JStr "starred")].

Definition push_args : Main.args :=
  Main.Args "octocat" 10 None Format.FText (Some ["PushEvent"]) None
            true false false.

Definition plain_args : Main.args :=
  Main.Args "octocat" 10 None Format.FText None None false false false.

End Demo.

(** * Theorems *)

Local Open Scope list_scope.

(** ** Python values *)

Section PyFacts.

Lemma py_eq_None (x : json) : py_eq JNull x = true <-> x = JNull.
Proof. destruct x; simpl; split; congruence. Qed.

Lemma py_eq_str (s : string) (x : json) : py_eq (JStr s) x = true <-> x = JStr s.
Proof.
  destruct x; simpl; split; try congruence.
  - intros H. apply String.eqb_eq in H. by subst.
  - intros [= ->]. apply String.eqb_refl.
Qed.

Lemma py_in_None (l : list json) : py_in JNull l = true <-> JNull ∈ l.
Proof.
  unfold py_in. rewrite existsb_exists, list_elem_of_In. split.
  - intros (x & Hx & Heq). apply py_eq_None in Heq. by subst.
  - intros H. exists JNull. split; [done | by apply py_eq_None].
Qed.

Lemma py_in_str (s : string) (l : list json) :
  py_in (JStr s) l = true <-> JStr s ∈ l.
Proof.
  unfold py_in. rewrite existsb_exists, list_elem_of_In. split.
  - intros (x & Hx & Heq). apply py_eq_str in Heq. by subst.
  - intros H. exists (JStr s). split; [done | by apply py_eq_str].
Qed.

Lemma dict_get_set_eq {V : Type} (k : string) (v : V) (d : list (string * V)) :
  dict_get k (dict_set k v d) = Some v.
Proof.
  induction d as [|[k' v'] d IH]; simpl.
  - by rewrite String.eqb_refl.
  - destruct (String.eqb k k') eqn:Hk; simpl.
    + by rewrite String.eqb_refl.
    + by rewrite Hk.
Qed.

Lemma dict_get_set_ne {V : Type} (k k0 : string) (v : V) (d : list (string * V)) :
  k0 <> k -> dict_get k0 (dict_set k v d) = dict_get k0 d.
Proof.
  intros Hne. induction d as [|[k' v'] d IH]; simpl.
  - destruct (String.eqb k0 k) eqn:Hk; [|done].
    apply String.eqb_eq in Hk. by subst.
  - destruct (String.eqb k k') eqn:Hk; simpl.
    + apply String.eqb_eq in Hk. subst k'.
      destruct (String.eqb k0 k) eqn:Hk0; [|done].
      apply String.eqb_eq in Hk0. by subst.
    + by rewrite IH.
Qed.

(** Setting a key replaces its entry where it stands, or adds one at the
    end: the other entries keep their place. *)
Lemma dict_set_keys {V : Type} (k : string) (v : V) (d : list (string * V)) :
  map fst (dict_set k v d) =
  match dict_get k d with
  | Some _ => map fst d
  | None => map fst d ++ [k]
  end.
Proof.
  induction d as [|[k' v'] d IH]; simpl; [done|].
  destruct (String.eqb k k') eqn:Hk; simpl.
  - apply String.eqb_eq in Hk. by subst.
  - rewrite IH. by destruct (dict_get k d).
Qed.

End PyFacts.

(** ** Filter stage *)

Section FilterFacts.
Import Filter Spec.

Lemma dimension_match_allows (set : option (list json)) (x : json) :
  dimension_match set x = bool_decide (allows set x).
Proof.
  destruct set as [l|]; [|done].
  destruct l as [|y l].
  - symmetry. apply bool_decide_eq_true. by left.
  - change (dimension_match (Some (y :: l)) x) with (py_in x (y :: l)).
    destruct (decide (allows (Some (y :: l)) x)) as [Ha|Ha].
    + rewrite (bool_decide_eq_true_2 _ Ha). by destruct Ha.
    + rewrite (bool_decide_eq_false_2 _ Ha).
      destruct (py_in x (y :: l)) eqn:Hin; [|done].
      exfalso. apply Ha. by right.
Qed.

Lemma activity_match_bool (filters : filter_spec) (ev : json) :
  is_record ev ->
  activity_match filters ev =
  Ret (dimension_match (types filters) (event_type ev) &&
       dimension_match (repos filters) (repo_name ev)).
Proof.
  destruct ev as [| | | | | |kvs]; simpl; try done.
  unfold activity_match. simpl.
  destruct (dict_get "repo" kvs) as [[| | | | | |r]|]; simpl; done.
Qed.

Lemma activity_match_record (filters : filter_spec) (ev : json) :
  is_record ev ->
  activity_match filters ev = Ret (bool_decide (keeps filters ev)).
Proof.
  intros Hrec. rewrite (activity_match_bool _ _ Hrec).
  rewrite !dimension_match_allows. f_equal.
  destruct (decide (keeps filters ev)) as [[Ht Hr]|Hno].
  - by rewrite !bool_decide_eq_true_2.
  - rewrite (bool_decide_eq_false_2 _ Hno). apply andb_false_iff.
    rewrite !bool_decide_eq_false.
    destruct (decide (allows (types filters) (event_type ev))); [right|by left].
    intros Hr. by apply Hno.
Qed.

Lemma filter_loop_records (filters : filter_spec) (activities acc : list json) :
  Forall is_record activities ->
  filter_loop activities filters acc =
  Ret (acc ++ filter (keeps filters) activities).
Proof.
  intros Hall. revert acc.
  induction Hall as [|ev rest Hev _ IH]; intros acc; simpl.
  - by rewrite app_nil_r.
  - rewrite (activity_match_record _ _ Hev). simpl.
    rewrite IH, filter_cons. destruct (decide (keeps filters ev)) as [Hk|Hk].
    + rewrite (bool_decide_eq_true_2 _ Hk). by rewrite <- app_assoc.
    + by rewrite (bool_decide_eq_false_2 _ Hk).
Qed.

Lemma filter_activities_records (activities : list json) (filters : filter_spec) :
  Forall is_record activities ->
  filter_activities activities filters = Ret (filter (keeps filters) activities).
Proof. intros Hall. unfold filter_activities. by rewrite filter_loop_records. Qed.

(** C1.  On a list of event records, [filter_activities] returns exactly
    the events that the filter allows, in input order: an event is in the
    output iff it is in the input and (its type is allowed: the type set
    is absent or empty, or holds the type) and (its repository name is
    allowed likewise); the output is a subsequence of the input. *)
Theorem filter_activities_exact (activities : list json) (filters : filter_spec) :
  Forall is_record activities ->
  filter_activities activities filters = Ret (filter (keeps filters) activities)
  /\ (forall ev, ev ∈ filter (keeps filters) activities <->
                 ev ∈ activities /\ keeps filters ev)
  /\ filter (keeps filters) activities `sublist_of` activities.
Proof.
  intros Hall. split; [|split].
  - by apply filter_activities_records.
  - intros ev. rewrite list_elem_of_filter. tauto.
  - apply sublist_filter.
Qed.

Lemma filter_activities_exact_witness :
  Forall is_record Demo.two_events /\
  filter_activities Demo.two_events Demo.only_push =
    Ret (filter (keeps Demo.only_push) Demo.two_events).
Proof.
  assert (Hrec : Forall is_record Demo.two_events)
    by (repeat constructor).
  split; [exact Hrec|].
  exact (proj1 (filter_activities_exact Demo.two_events Demo.only_push Hrec)).
Defined.

(** An event whose [repo] is [null] lacks [repo.name], and the filter
    raises on it. *)
Lemma filter_activities_null_repo_raises :
  lacks_repo_name_value Demo.null_repo_event /\
  filter_activities [Demo.null_repo_event] Demo.no_filter =
    Raise (Exn AttributeError "'NoneType' object has no attribute 'get'").
Proof. split; [|reflexivity]. by exists JNull. Qed.

Lemma allows_lacking (set : option (list json)) (x : json) (l : list json) :
  allows set x -> set = Some l -> l <> [] -> py_in x l = true.
Proof. intros Ha -> Hne. destruct Ha; [contradiction|done]. Qed.

(** C9, amended.  On event records (dicts whose [repo], where present, is
    a dict) [filter_activities] raises no error.  An event without [type]
    is filtered as if its type were [None], an event without [repo] or
    without [repo.name] as if its repository name were the empty string:
    such an event passes a non-empty type filter only if [None] is among
    the allowed types, and a non-empty repo filter only if the empty
    string is among the allowed names. *)
Theorem filter_activities_total_on_records
    (activities : list json) (filters : filter_spec) :
  Forall is_record activities ->
  exists out, filter_activities activities filters = Ret out /\
    forall ev, ev ∈ activities ->
      (lacks_type ev ->
         (ev ∈ out <-> allows (types filters) JNull /\
                       allows (repos filters) (repo_name ev)) /\
         (ev ∈ out -> forall l, types filters = Some l -> l <> [] -> JNull ∈ l))
      /\
      (lacks_repo_name ev ->
         (ev ∈ out <-> allows (types filters) (event_type ev) /\
                       allows (repos filters) (JStr "")) /\
         (ev ∈ out -> forall l, repos filters = Some l -> l <> [] -> JStr "" ∈ l)).
Proof.
  intros Hall. pose proof (filter_activities_records _ filters Hall) as Hrun.
  assert (Hin : forall ev, ev ∈ filter (keeps filters) activities <->
                           ev ∈ activities /\ keeps filters ev).
  { intros ev. rewrite list_elem_of_filter. tauto. }
  exists (filter (keeps filters) activities). split; [done|].
  intros ev Hev. split.
  - intros (kvs & -> & Hty).
    assert (Htype : event_type (JObj kvs) = JNull) by (simpl; by rewrite Hty).
    assert (Hiff : JObj kvs ∈ filter (keeps filters) activities <->
                   allows (types filters) JNull /\
                   allows (repos filters) (repo_name (JObj kvs))).
    { rewrite Hin. unfold keeps. rewrite Htype. tauto. }
    split; [done|].
    intros Hout l Hl Hne. apply py_in_None.
    apply Hiff in Hout as [Ha _]. by eapply allows_lacking.
  - intros (kvs & -> & Hrepo).
    assert (Hname : repo_name (JObj kvs) = JStr "").
    { simpl. destruct Hrepo as [->|(r & -> & ->)]; done. }
    assert (Hiff : JObj kvs ∈ filter (keeps filters) activities <->
                   allows (types filters) (event_type (JObj kvs)) /\
                   allows (repos filters) (JStr "")).
    { rewrite Hin. unfold keeps. rewrite Hname. tauto. }
    split; [done|].
    intros Hout l Hl Hne. apply py_in_str.
    apply Hiff in Hout as [_ Ha]. by eapply allows_lacking.
Qed.

Lemma filter_activities_total_on_records_witness :
  Forall is_record [Demo.bare_event; Demo.push_event] /\
  exists out,
    filter_activities [Demo.bare_event; Demo.push_event] Demo.only_push = Ret out.
Proof.
  assert (Hrec : Forall is_record [Demo.bare_event; Demo.push_event])
    by (repeat constructor).
  split; [exact Hrec|].
  destruct (filter_activities_total_on_records _ Demo.only_push Hrec)
    as (out & Hout & _).
  by exists out.
Defined.

End FilterFacts.

(** ** Limit *)

Section LimitFacts.
Import Filter Spec Main.

Lemma slice_to_nonneg {A : Type} (l : list A) (n : Z) :
  (0 <= n)%Z -> slice_to l n = take (Z.to_nat n) l.
Proof. intros Hn. unfold slice_to. by rewrite (proj2 (Z.ltb_ge n 0) Hn). Qed.

(** A limit of -1 keeps all events but the last: one event out of two,
    which is more than the limit and is not "the first -1". *)
Lemma select_negative_limit :
  select Demo.two_events Demo.no_filter (-1) = Ret [Demo.push_event] /\
  ~ (Z.of_nat (length [Demo.push_event]) <= -1)%Z.
Proof. split; [reflexivity | simpl; lia]. Qed.

(** C4, amended.  For every list of event records and every limit
    [N >= 0], the events are filtered first and the first [N] of the
    filtered events are kept; the result has at most [N] events. *)
Theorem select_truncates_after_filtering
    (activities : list json) (filters : filter_spec) (limit : Z) :
  Forall is_record activities ->
  (0 <= limit)%Z ->
  exists filtered,
    filter_activities activities filters = Ret filtered /\
    select activities filters limit = Ret (take (Z.to_nat limit) filtered) /\
    (Z.of_nat (length (take (Z.to_nat limit) filtered)) <= limit)%Z.
Proof.
  intros Hall Hlim.
  pose proof (filter_activities_records _ filters Hall) as Hrun.
  exists (filter (keeps filters) activities). split; [done|]. split.
  - unfold select. rewrite Hrun. simpl. by rewrite slice_to_nonneg.
  - rewrite length_take. lia.
Qed.

Lemma select_truncates_after_filtering_witness :
  Forall is_record Demo.two_events /\ (0 <= 1)%Z /\
  exists filtered,
    filter_activities Demo.two_events Demo.no_filter = Ret filtered /\
    select Demo.two_events Demo.no_filter 1 = Ret (take 1 filtered).
Proof.
  assert (Hrec : Forall is_record Demo.two_events) by (repeat constructor).
  assert (Hlim : (0 <= 1)%Z) by lia.
  split; [exact Hrec|]. split; [exact Hlim|].
  destruct (select_truncates_after_filtering _ Demo.no_filter 1 Hrec Hlim)
    as (filtered & Hf & Hs & _).
  exists filtered. by split.
Defined.

End LimitFacts.

(** ** Cache store *)

Section CacheFacts.
Import Cache Fetch.

Lemma delete_user_filter (user : string) (rows : list row) :
  delete_user user rows = filter (fun r => row_username r <> user) rows.
Proof.
  induction rows as [|r rows IH]; [done|].
  unfold delete_user in *. simpl. rewrite filter_cons.
  destruct (String.eqb_spec (row_username r) user) as [Heq|Hne]; simpl.
  - rewrite decide_False by (intros ?; contradiction). exact IH.
  - rewrite decide_True by done. by rewrite IH.
Qed.

Lemma select_fresh_filter (user : string) (now : Z) (rows : list row) :
  select_fresh user now rows =
  filter (fun r => row_username r = user /\ (now - 600 <= row_timestamp r)%Z) rows.
Proof.
  induction rows as [|r rows IH]; [done|].
  unfold select_fresh in *. simpl. rewrite filter_cons. unfold fresh at 1.
  destruct (String.eqb_spec (row_username r) user) as [Heq|Hne]; simpl.
  - destruct (Z.leb_spec (now - 600) (row_timestamp r)).
    + rewrite decide_True by done. by rewrite IH.
    + rewrite decide_False by (intros [_ ?]; lia). exact IH.
  - rewrite decide_False by (intros [? _]; contradiction). exact IH.
Qed.

Lemma filter_user_deleted (user : string) (rows : list row) :
  filter (fun r => row_username r = user)
         (filter (fun r => row_username r <> user) rows) = [].
Proof.
  induction rows as [|r rows IH]; [done|].
  rewrite filter_cons. destruct (decide (row_username r <> user)) as [Hne|Heq].
  - rewrite filter_cons. by rewrite decide_False.
  - done.
Qed.

Lemma filter_other_deleted (user u : string) (rows : list row) :
  u <> user ->
  filter (fun r => row_username r = u)
         (filter (fun r => row_username r <> user) rows) =
  filter (fun r => row_username r = u) rows.
Proof.
  intros Hne. induction rows as [|r rows IH]; [done|].
  rewrite !filter_cons.
  destruct (decide (row_username r <> user)) as [Hr|Hr].
  - rewrite filter_cons. by rewrite IH.
  - rewrite decide_False; [done|]. intros Hu. apply Hr. by rewrite Hu.
Qed.

(** C7.  A cache write for a username leaves exactly one row for that
    username, the new entry: the rows it had before are deleted first, the
    new row is inserted after them, and the rows of every other username
    are the same as before, in the same order. *)
Theorem cache_write_single_row (E : env) (user : string) (data : json) (w : world) :
  let entry := Row user (json_dumps E data) (clock w) in
  let w' := (_cache_activities E user data w).2 in
  (_cache_activities E user data w).1 = Ret tt /\
  db w' = filter (fun r => row_username r <> user) (db w) ++ [entry] /\
  filter (fun r => row_username r = user) (db w') = [entry] /\
  (length (filter (fun r => row_username r = user) (db w')) <= 1)%nat /\
  forall u, u <> user ->
    filter (fun r => row_username r = u) (db w') =
    filter (fun r => row_username r = u) (db w).
Proof.
  intros entry w'.
  assert (Hdb : db w' = filter (fun r => row_username r <> user) (db w) ++ [entry]).
  { subst w'. unfold _cache_activities. simpl. by rewrite delete_user_filter. }
  assert (Hone : filter (fun r => row_username r = user) (db w') = [entry]).
  { rewrite Hdb, filter_app, filter_user_deleted. simpl.
    rewrite filter_cons. by rewrite decide_True. }
  split; [done|]. split; [done|]. split; [done|]. split.
  - by rewrite Hone.
  - intros u Hne. rewrite Hdb, filter_app, filter_other_deleted by done.
    rewrite filter_cons, decide_False by (simpl; congruence).
    by rewrite app_nil_r.
Qed.

End CacheFacts.

(** ** Activity fetcher *)

Section FetchFacts.
Import Cache Fetch.

Lemma select_fresh_deleted (user : string) (now : Z) (rows : list row) :
  select_fresh user now (delete_user user rows) = [].
Proof.
  unfold select_fresh, delete_user.
  induction rows as [|r rows IH]; [done|]. simpl.
  destruct (String.eqb (row_username r) user) eqn:Hu; simpl; [done|].
  by rewrite Hu.
Qed.

Lemma select_fresh_after_write (user text : string) (now t : Z) (rows : list row) :
  (now - 600 <= t)%Z ->
  select_fresh user now (delete_user user rows ++ [Row user text t]) =
  [Row user text t].
Proof.
  intros Hfresh. unfold select_fresh. rewrite List.filter_app.
  fold (select_fresh user now (delete_user user rows)).
  rewrite select_fresh_deleted. simpl. rewrite String.eqb_refl. unfold fresh.
  simpl. by rewrite (proj2 (Z.leb_le _ _) Hfresh).
Qed.

(** A read within ten minutes of a write gives back what was written. *)
Lemma get_cached_after_write (E : env) (user : string) (data : json)
    (w : world) (now : Z) :
  json_loads E (json_dumps E data) = inr data ->
  (now - 600 <= clock w)%Z ->
  let w1 := set_clock now (_cache_activities E user data w).2 in
  _get_cached_activities E user w1 = (Ret data, w1).
Proof.
  intros Hrt Hfresh w1. unfold _get_cached_activities. subst w1. simpl.
  rewrite select_fresh_after_write by done. unfold lift, loads. simpl.
  by rewrite Hrt.
Qed.

(** The row a cache read takes is a row of the user written at most ten
    minutes before. *)
Lemma cache_read_is_fresh (user : string) (now : Z) (rows rest : list row)
    (r : row) :
  select_fresh user now rows = r :: rest ->
  r ∈ rows /\ row_username r = user /\ (now - 600 <= row_timestamp r)%Z.
Proof.
  intros Hsel. rewrite select_fresh_filter in Hsel.
  assert (Hin : r ∈ filter (fun r => row_username r = user /\
                                     (now - 600 <= row_timestamp r)%Z) rows)
    by (rewrite Hsel; left).
  apply list_elem_of_filter in Hin. tauto.
Qed.

(** An entry older than ten minutes is not returned. *)
Lemma stale_entry_not_returned (E : env) (user : string) (w : world) :
  (forall r, r ∈ db w -> row_username r = user ->
             (row_timestamp r < clock w - 600)%Z) ->
  _get_cached_activities E user w = (Ret JNull, w).
Proof.
  intros Hstale. unfold _get_cached_activities.
  rewrite select_fresh_filter.
  destruct (filter _ (db w)) as [|r rest] eqn:Hsel; [done|].
  assert (Hin : r ∈ filter (fun r => row_username r = user /\
                                     (clock w - 600 <= row_timestamp r)%Z) (db w))
    by (rewrite Hsel; left).
  apply list_elem_of_filter in Hin as [[Hu Hf] Hr].
  specialize (Hstale r Hr Hu). lia.
Qed.

Lemma fetch_hit (E : env) (user : string) (token : option string)
    (w : world) (cached : json) :
  _get_cached_activities E user w = (Ret cached, w) ->
  truthy cached = true ->
  fetch_activities E user token true w = (Ret cached, w).
Proof.
  intros Hget Htrue. unfold fetch_activities, mbind, prog_bind, mret, prog_ret.
  by rewrite Hget, Htrue.
Qed.

Lemma fetch_falsy (E : env) (user : string) (token : option string)
    (w : world) (cached : json) :
  _get_cached_activities E user w = (Ret cached, w) ->
  truthy cached = false ->
  fetch_activities E user token true w = request_events E user token true w.
Proof.
  intros Hget Hfalse. unfold fetch_activities, mbind, prog_bind, mret, prog_ret.
  by rewrite Hget, Hfalse.
Qed.

(** A write followed by a fetch within ten minutes returns the list that
    was written and leaves the world as it is (no request is sent),
    provided the list is not empty. *)
Lemma fetch_after_write_hit (E : env) (user : string) (token : option string)
    (data : json) (w : world) (now : Z) :
  json_loads E (json_dumps E data) = inr data ->
  truthy data = true ->
  (now - 600 <= clock w)%Z ->
  let w1 := set_clock now (_cache_activities E user data w).2 in
  fetch_activities E user token true w1 = (Ret data, w1).
Proof.
  intros Hrt Htrue Hfresh w1. apply fetch_hit; [|done].
  by apply get_cached_after_write.
Qed.

Lemma on_http_error_net_log (E : env) (code : Z) (reason : string)
    (headers : string -> option string) (w : world) :
  net_log (on_http_error E code reason headers w).2 = net_log w.
Proof.
  unfold on_http_error, mbind, prog_bind, print, lift, sys_exit. simpl.
  case_bool_decide; [|done]. simpl.
  destruct (py_int E _) as [e|epoch]; [done|]. simpl.
  destruct (fromtimestamp E epoch) as [e|text]; done.
Qed.

(** Whatever the reply, [request_events] sends exactly one request. *)
Lemma request_events_net_log (E : env) (user : string) (token : option string)
    (use_cache : bool) (w : world) :
  net_log (request_events E user token use_cache w).2 =
  net_log w ++ [events_request user token].
Proof.
  unfold request_events, mbind, prog_bind, send. simpl.
  destruct (urlopen E _ _) as [code reason headers|reason|e|text].
  - by rewrite on_http_error_net_log.
  - done.
  - done.
  - unfold lift, loads. destruct (json_loads E text) as [msg|data]; [done|].
    by destruct use_cache.
Qed.

(** C2, at the input where the code departs from it.  After a cache write
    of the empty list, the cache read does return the empty list, but
    [fetch_activities] treats it as a miss and sends a request. *)
Theorem fetch_after_caching_empty_list (E : env) (user : string)
    (token : option string) (w : world) :
  json_loads E (json_dumps E (JArr [])) = inr (JArr []) ->
  let w1 := (_cache_activities E user (JArr []) w).2 in
  _get_cached_activities E user w1 = (Ret (JArr []), w1) /\
  fetch_activities E user token true w1 = request_events E user token true w1 /\
  net_log (fetch_activities E user token true w1).2 =
    net_log w1 ++ [events_request user token].
Proof.
  intros Hrt w1.
  assert (Hget : _get_cached_activities E user w1 = (Ret (JArr []), w1)).
  { pose proof (get_cached_after_write E user (JArr []) w (clock w) Hrt) as H.
    simpl in H. subst w1. destruct w. apply H. simpl. lia. }
  assert (Hmiss : fetch_activities E user token true w1 =
                  request_events E user token true w1)
    by (by eapply fetch_falsy).
  split; [done|]. split; [done|].
  rewrite Hmiss. apply request_events_net_log.
Qed.

Lemma fetch_after_caching_empty_list_witness :
  let E := Demo.demo_env (Demo.always (Body (Demo.demo_dumps (JArr [Demo.push_event])))) in
  let w1 := (_cache_activities E "octocat" (JArr []) Demo.empty_world).2 in
  json_loads E (json_dumps E (JArr [])) = inr (JArr []) /\
  net_log (fetch_activities E "octocat" None true w1).2 =
    net_log w1 ++ [events_request "octocat" None].
Proof.
  intros E w1.
  assert (Hrt : json_loads E (json_dumps E (JArr [])) = inr (JArr []))
    by reflexivity.
  split; [exact Hrt|].
  exact (proj2 (proj2 (fetch_after_caching_empty_list
                         E "octocat" None Demo.empty_world Hrt))).
Defined.

(** The same run on the sample network: the fetch returns the list the
    network sends, not the empty list that was cached a moment before. *)
Lemma refetch_after_empty_write_sample :
  let E := Demo.demo_env (Demo.always (Body (Demo.demo_dumps (JArr [Demo.push_event])))) in
  let w1 := (_cache_activities E "octocat" (JArr []) Demo.empty_world).2 in
  (fetch_activities E "octocat" None true w1).1 = Ret (JArr [Demo.push_event]) /\
  net_log (fetch_activities E "octocat" None true w1).2 =
    [events_request "octocat" None].
Proof. split; vm_compute; reflexivity. Qed.

End FetchFacts.

(** ** Errors of the primary fetch *)

Section FetchErrorFacts.
Import Cache Fetch Main Spec.

Lemma fetch_miss (E : env) (user : string) (token : option string)
    (use_cache : bool) (w : world) :
  reaches_network E user use_cache w ->
  fetch_activities E user token use_cache w =
  request_events E user token use_cache w.
Proof.
  intros [->|(cached & Hget & Hfalse)].
  - done.
  - destruct use_cache; [|done]. unfold fetch_activities, mbind, prog_bind, mret, prog_ret.
    by rewrite Hget, Hfalse.
Qed.

Lemma pipeline_fetch_exit (E : env) (a : args) (w w' : world) (code : Z) :
  fetch_activities E (arg_username a) (arg_token a) (arg_no_cache a) w =
    (Exit code, w') ->
  run E a w = (code, w').
Proof.
  intros Hf. unfold run, main, _init_cache, try_except, pipeline, mbind,
    prog_bind, mret, prog_ret. by rewrite Hf.
Qed.

Lemma pipeline_fetch_raise (E : env) (a : args) (w w' : world) (e : exn) :
  fetch_activities E (arg_username a) (arg_token a) (arg_no_cache a) w =
    (Raise e, w') ->
  (run E a w).1 = 1%Z /\
  exists line, stdout (run E a w).2 = stdout w' ++ [line].
Proof.
  intros Hf. unfold run, main, _init_cache, try_except, pipeline, mbind,
    prog_bind, mret, prog_ret. rewrite Hf. unfold on_exception.
  destruct (exn_cls e); simpl; eauto.
Qed.

Lemma on_http_error_cases (E : env) (code : Z) (reason : string)
    (headers : string -> option string) (w : world) :
  let api_line := "API Error: " +:+ Z_to_string code +:+ " " +:+ reason in
  let w1 := set_stdout (stdout w ++ [api_line]) w in
  on_http_error E code reason headers w =
  if bool_decide (headers "X-RateLimit-Remaining" = Some "0")
  then match py_int E (headers "X-RateLimit-Reset") with
       | inl e => (Raise e, w1)
       | inr epoch =>
           match fromtimestamp E epoch with
           | inl e => (Raise e, w1)
           | inr text =>
               (Exit 1,
                set_stdout (stdout w ++ [api_line;
                                         "Rate limit exceeded. Reset at " +:+ text]) w)
           end
       end
  else (Exit 1, w1).
Proof.
  intros api_line w1.
  unfold on_http_error, mbind, prog_bind, print, lift, sys_exit. simpl.
  case_bool_decide; [|done]. simpl.
  destruct (py_int E _) as [e|epoch]; [done|]. simpl.
  destruct (fromtimestamp E epoch) as [e|text]; [done|]. simpl.
  unfold set_stdout. simpl. by rewrite <- app_assoc.
Qed.

(** C8.  When the primary fetch goes to the network and the reply is an
    HTTP error, the line with the status code and the reason is printed
    and the process ends with exit status 1; if the header
    [X-RateLimit-Remaining] is ["0"] and [X-RateLimit-Reset] holds a Unix
    time, the reset time derived from it is printed next, before the
    process ends.  When the reply is a connection error, the reason is
    printed and the process ends with exit status 1. *)
Theorem primary_fetch_errors_are_fatal (E : env) (a : args) (w : world) :
  reaches_network E (arg_username a) (arg_no_cache a) w ->
  let reply :=
    urlopen E (length (net_log w))
            (events_request (arg_username a) (arg_token a)) in
  (forall code reason headers,
     reply = HTTPError code reason headers ->
     let api_line := "API Error: " +:+ Z_to_string code +:+ " " +:+ reason in
     (run E a w).1 = 1%Z /\
     (exists more, stdout (run E a w).2 = stdout w ++ api_line :: more) /\
     (forall epoch text,
        headers "X-RateLimit-Remaining" = Some "0" ->
        py_int E (headers "X-RateLimit-Reset") = inr epoch ->
        fromtimestamp E epoch = inr text ->
        stdout (run E a w).2 =
          stdout w ++ [api_line; "Rate limit exceeded. Reset at " +:+ text]) /\
     (headers "X-RateLimit-Remaining" <> Some "0" ->
        stdout (run E a w).2 = stdout w ++ [api_line]))
  /\
  (forall reason,
     reply = URLError reason ->
     (run E a w).1 = 1%Z /\
     stdout (run E a w).2 = stdout w ++ ["Connection Error: " +:+ reason]).
Proof.
  intros Hmiss reply.
  pose proof (fetch_miss E _ (arg_token a) _ w Hmiss) as Hfetch.
  set (req := events_request (arg_username a) (arg_token a)) in *.
  set (ws := set_net_log (net_log w ++ [req]) w).
  split.
  - intros code reason headers Hreply api_line.
    assert (Hreq : fetch_activities E (arg_username a) (arg_token a)
                     (arg_no_cache a) w =
                   on_http_error E code reason headers ws).
    { rewrite Hfetch. unfold request_events, mbind, prog_bind, send. simpl.
      fold req. fold reply. by rewrite Hreply. }
    rewrite on_http_error_cases in Hreq. fold api_line in Hreq.
    case_bool_decide as Hzero.
    + destruct (py_int E (headers "X-RateLimit-Reset")) as [e|epoch] eqn:Hint.
      { destruct (pipeline_fetch_raise E a w _ e Hreq) as (Hcode & line & Hout).
        split; [done|]. split.
        - exists [line]. rewrite Hout. simpl. by rewrite <- app_assoc.
        - split; [intros ??? [=]|done]. }
      destruct (fromtimestamp E epoch) as [e|text] eqn:Htime.
      { destruct (pipeline_fetch_raise E a w _ e Hreq) as (Hcode & line & Hout).
        split; [done|]. split.
        - exists [line]. rewrite Hout. simpl. by rewrite <- app_assoc.
        - split; [|done]. intros ?? _ [= <-]. by rewrite Htime. }
      rewrite (pipeline_fetch_exit E a w _ 1 Hreq). simpl.
      split; [done|]. split; [by eexists|]. split; [|done].
      intros ?? _ [= <-]. rewrite Htime. by intros [= <-].
    + rewrite (pipeline_fetch_exit E a w _ 1 Hreq). simpl.
      split; [done|]. split; [by exists []|]. split; [|done].
      intros ?? Hz. contradiction.
  - intros reason Hreply.
    assert (Hreq : fetch_activities E (arg_username a) (arg_token a)
                     (arg_no_cache a) w =
                   (Exit 1, set_stdout (stdout w ++ ["Connection Error: " +:+ reason]) ws)).
    { rewrite Hfetch. unfold request_events, mbind, prog_bind, send. simpl.
      fold req. fold reply. by rewrite Hreply. }
    by rewrite (pipeline_fetch_exit E a w _ 1 Hreq).
Qed.

Lemma primary_fetch_errors_are_fatal_witness :
  let E := Demo.demo_env (Demo.always Demo.rate_limited) in
  reaches_network E (arg_username Demo.plain_args) (arg_no_cache Demo.plain_args)
                  Demo.empty_world /\
  (run E Demo.plain_args Demo.empty_world).1 = 1%Z /\
  stdout (run E Demo.plain_args Demo.empty_world).2 =
    ["API Error: 403 rate limit exceeded";
     "Rate limit exceeded. Reset at epoch+1700000000s"].
Proof.
  intros E.
  assert (Hmiss : reaches_network E (arg_username Demo.plain_args)
                    (arg_no_cache Demo.plain_args) Demo.empty_world)
    by (left; reflexivity).
  split; [exact Hmiss|].
  pose proof (proj1 (primary_fetch_errors_are_fatal E Demo.plain_args
                       Demo.empty_world Hmiss)
                    403%Z "rate limit exceeded" Demo.rate_limit_headers
                    eq_refl) as (Hcode & _ & Hreset & _).
  split; [exact Hcode|].
  exact (Hreset 1700000000%Z "epoch+1700000000s" eq_refl eq_refl eq_refl).
Defined.

End FetchErrorFacts.

(** ** Enrichment stage *)

Section EnrichFacts.
Import Enrich Spec.

(** The whole effect of one call on an event that has a [repo.name]: one
    request is sent, [repo_details] is set on the dict the reference
    points to, and the reference comes back. *)
Lemma enrich_activity_run (E : env) (activity : nat) (w : world)
    (kvs r : list (string * json)) (name : json) :
  heap w !! activity = Some (JObj kvs) ->
  dict_get "repo" kvs = Some (JObj r) ->
  dict_get "name" r = Some name ->
  let req := repo_request E name in
  let details := details_of E (urlopen E (length (net_log w)) req) in
  enrich_activity E activity w =
  (Ret activity,
   set_heap (<[activity := JObj (dict_set "repo_details" details kvs)]> (heap w))
            (set_net_log (net_log w ++ [req]) w)).
Proof.
  intros Hev Hrepo Hname req details.
  unfold enrich_activity, mbind, prog_bind, deref, lift, try_except. simpl.
  rewrite Hev. simpl. rewrite Hrepo. simpl. rewrite Hname. simpl.
  unfold urlopen_text, mbind, prog_bind, send, raise, setitem. simpl.
  fold req. subst details.
  destruct (urlopen E (length (net_log w)) req) as [code reason hs|reason|e|text];
    simpl; rewrite ?Hev; try done.
  unfold loads.
  destruct (json_loads E text) as [msg|[| | | | | |repo_data]];
    simpl; rewrite ?Hev; done.
Qed.

Lemma details_of_shape (E : env) (r : reply) :
  is_summary (details_of E r) \/ is_error_details (details_of E r).
Proof.
  destruct r as [code reason hs|reason|e|text]; simpl;
    try (right; by eexists).
  destruct (json_loads E text) as [msg|[| | | | | |repo_data]];
    try (right; by eexists).
  left. by do 3 eexists.
Qed.

Lemma details_of_failure (E : env) (r : reply) :
  lookup_fails E r -> is_error_details (details_of E r).
Proof.
  intros Hfail. destruct r as [code reason hs|reason|e|text]; simpl;
    try by eexists.
  destruct (json_loads E text) as [msg|[| | | | | |repo_data]] eqn:Hload;
    try by eexists.
  exfalso. apply (Hfail repo_data). by exists text.
Qed.

Lemma details_of_success (E : env) (r : reply) (repo_data : list (string * json)) :
  lookup_succeeds E r repo_data ->
  details_of E r =
  summary (default JNull (dict_get "stargazers_count" repo_data))
          (default JNull (dict_get "forks_count" repo_data))
          (default JNull (dict_get "description" repo_data)).
Proof. intros (text & -> & Hload). simpl. by rewrite Hload. Qed.

(** C10.  For an event that has a [repo.name], [enrich_activity] returns
    the reference it was given, and the dict behind it differs from what
    it was in one field only: [repo_details] is now present, holding
    either [{stars, forks, description}] or [{error: message}]; every
    other key has the value it had, the keys keep their order (a new
    [repo_details] goes last), and no other object changes. *)
Theorem enrich_activity_frame (E : env) (activity : nat) (w : world) (ev : json) :
  heap w !! activity = Some ev ->
  has_repo_name ev ->
  exists kvs kvs' details w',
    ev = JObj kvs /\
    enrich_activity E activity w = (Ret activity, w') /\
    heap w' !! activity = Some (JObj kvs') /\
    dict_get "repo_details" kvs' = Some details /\
    (is_summary details \/ is_error_details details) /\
    (forall k, k <> "repo_details" -> dict_get k kvs' = dict_get k kvs) /\
    (map fst kvs' = map fst kvs \/ map fst kvs' = map fst kvs ++ ["repo_details"]) /\
    (forall other, other <> activity -> heap w' !! other = heap w !! other).
Proof.
  intros Hev (kvs & r & name & -> & Hrepo & Hname).
  pose proof (enrich_activity_run E activity w kvs r name Hev Hrepo Hname) as Hrun.
  simpl in Hrun.
  eexists kvs, _, _, _. split; [done|]. split; [exact Hrun|].
  simpl. rewrite lookup_insert_eq. split; [done|].
  split; [apply dict_get_set_eq|]. split; [apply details_of_shape|].
  split; [intros k Hk; by apply dict_get_set_ne|]. split.
  - rewrite dict_set_keys. destruct (dict_get "repo_details" kvs); auto.
  - intros other Hne. by rewrite lookup_insert_ne.
Qed.

Lemma enrich_activity_frame_witness :
  let E := Demo.demo_env (Demo.always (Body (Demo.demo_dumps Demo.repo_reply))) in
  let w := set_heap {[ 0%nat := Demo.push_event ]} Demo.empty_world in
  heap w !! 0%nat = Some Demo.push_event /\
  has_repo_name Demo.push_event /\
  exists w', enrich_activity E 0 w = (Ret 0%nat, w').
Proof.
  intros E w.
  assert (Hev : heap w !! 0%nat = Some Demo.push_event) by reflexivity.
  assert (Hname : has_repo_name Demo.push_event).
  { eexists _, _, _. split; [reflexivity|]. split; reflexivity. }
  split; [exact Hev|]. split; [exact Hname|].
  destruct (enrich_activity_frame E 0%nat w Demo.push_event Hev Hname)
    as (kvs & kvs' & details & w' & _ & Hrun & _).
  exists w'. exact Hrun.
Defined.

(** The loop of the comprehension over the references [start .. start+n):
    every call returns, the [i]-th event receives the details of the
    [i]-th reply, and nothing else in the heap changes. *)
Lemma for_each_enrich (E : env) (n : nat) :
  forall (start : nat) (w : world),
    (forall i, (start <= i < start + n)%nat ->
               exists ev, heap w !! i = Some ev /\ has_repo_name ev) ->
    exists w',
      for_each (enrich_activity E) (seq start n) w = (Ret (seq start n), w') /\
      (forall i, ~ (start <= i < start + n)%nat -> heap w' !! i = heap w !! i) /\
      (forall i, (start <= i < start + n)%nat ->
         exists kvs r name,
           heap w !! i = Some (JObj kvs) /\
           dict_get "repo" kvs = Some (JObj r) /\
           dict_get "name" r = Some name /\
           heap w' !! i =
             Some (JObj (dict_set "repo_details"
                           (details_of E
                              (urlopen E (length (net_log w) + (i - start))%nat
                                       (repo_request E name)))
                           kvs))).
Proof.
  induction n as [|n IH]; intros start w Hnamed.
  - exists w. split; [done|]. split; [done|]. intros i Hi. lia.
  - destruct (Hnamed start) as (ev & Hev & (kvs & r & name & -> & Hrepo & Hname));
      [lia|].
    pose proof (enrich_activity_run E start w kvs r name Hev Hrepo Hname) as Hrun.
    simpl in Hrun.
    set (details := details_of E (urlopen E (length (net_log w)) (repo_request E name)))
      in *.
    set (w1 := set_heap (<[start := JObj (dict_set "repo_details" details kvs)]> (heap w))
                        (set_net_log (net_log w ++ [repo_request E name]) w)) in *.
    assert (Hsame : forall i, i <> start -> heap w1 !! i = heap w !! i).
    { intros i Hi. subst w1. simpl. by rewrite lookup_insert_ne. }
    destruct (IH (S start) w1) as (w' & Hloop & Hout & Hin).
    { intros i Hi. rewrite Hsame by lia. apply Hnamed. lia. }
    exists w'. split; [|split].
    + simpl. unfold mbind, prog_bind at 1. rewrite Hrun.
      unfold mbind, prog_bind at 1. by rewrite Hloop.
    + intros i Hi. rewrite Hout by lia. apply Hsame. lia.
    + intros i Hi. destruct (decide (i = start)) as [->|Hne].
      * exists kvs, r, name. split; [done|]. split; [done|]. split; [done|].
        rewrite Hout by lia. subst w1. simpl. rewrite lookup_insert_eq.
        by rewrite Nat.sub_diag, Nat.add_0_r.
      * destruct (Hin i) as (kvs' & r' & name' & Hk & Hr & Hn & Hnew); [lia|].
        exists kvs', r', name'. rewrite <- Hsame by done.
        split; [done|]. split; [done|]. split; [done|].
        rewrite Hnew. subst w1. simpl. rewrite length_app. simpl.
        by replace (length (net_log w) + 1 + (i - S start))%nat
          with (length (net_log w) + (i - start))%nat by lia.
Qed.

(** Reading a list of live references leaves the world as it is. *)
Lemma for_each_deref (refs : list nat) (w : world) :
  (forall a, a ∈ refs -> is_Some (heap w !! a)) ->
  exists vs,
    for_each deref refs w = (Ret vs, w) /\
    length vs = length refs /\
    forall j a, refs !! j = Some a -> vs !! j = heap w !! a.
Proof.
  induction refs as [|a refs IH]; intros Hlive.
  - exists []. split; [done|]. split; [done|]. intros j a Hj. done.
  - destruct (Hlive a) as [v Hv]; [left|].
    destruct IH as (vs & Hrun & Hlen & Hvs).
    { intros b Hb. apply Hlive. by right. }
    exists (v :: vs). split; [|split].
    + simpl. unfold mbind, prog_bind at 1. unfold deref at 1. rewrite Hv.
      unfold mbind, prog_bind at 1. by rewrite Hrun.
    + simpl. by rewrite Hlen.
    + intros [|j] b Hj; simpl in *.
      * injection Hj as <-. done.
      * by apply Hvs.
Qed.

(** Where the code departs from C3 as stated.  An event without [repo]
    makes [enrich_activity] raise [KeyError]: with such an event first in
    the cached list, the run prints the error and ends with status 1, and
    the event after it is neither enriched nor printed.  And a reply that
    is an object without the three fields is no failure: the fields are
    recorded as [None], not as an error. *)
Lemma enrich_activity_not_total :
  let E := Demo.demo_env (Demo.always (Body (Demo.demo_dumps (JObj [])))) in
  let w := set_heap {[ 0%nat := Demo.bare_event ]} Demo.empty_world in
  let cached := Demo.cached_world (JArr [Demo.bare_event; Demo.push_event]) in
  let w2 := set_heap {[ 0%nat := Demo.push_event ]} Demo.empty_world in
  enrich_activity E 0 w = (Raise (Exn KeyError "'repo'"), w) /\
  (Main.run E Demo.enrich_args cached).1 = 1%Z /\
  stdout (Main.run E Demo.enrich_args cached).2 = ["Unexpected error: 'repo'"] /\
  (enrich_activity E 0 w2).1 = Ret 0%nat /\
  (heap (enrich_activity E 0 w2).2 !! 0%nat) ≫= (fun ev =>
     match ev with JObj kvs => dict_get "repo_details" kvs | _ => None end) =
    Some (summary JNull JNull JNull).
Proof. repeat split; vm_compute; reflexivity. Qed.

(** C3, amended.  For events that have a [repo.name], [enrich_activity]
    never raises, and the comprehension of [main] enriches every one of
    them: the [i]-th event comes back with [repo_details] computed from
    the [i]-th reply alone.  When that lookup fails (HTTP error,
    connection error, any other exception, a body that does not parse or
    does not parse to an object) the field is [{error: message}]; when it
    succeeds the field is [{stars, forks, description}], with [None] for a
    field the reply does not have.  So a failing lookup for one event
    never keeps the others from being enriched and returned. *)
Theorem enrichment_failures_are_per_event
    (E : env) (filtered : list json) (w : world) :
  Forall has_repo_name filtered ->
  (forall a ev, heap w !! a = Some ev -> has_repo_name ev ->
                exists w', enrich_activity E a w = (Ret a, w')) /\
  exists out w',
    enrich_all E filtered w = (Ret out, w') /\
    length out = length filtered /\
    forall i ev, filtered !! i = Some ev ->
      exists kvs r name,
        ev = JObj kvs /\
        dict_get "repo" kvs = Some (JObj r) /\
        dict_get "name" r = Some name /\
        let reply := urlopen E (length (net_log w) + i)%nat (repo_request E name) in
        out !! i = Some (JObj (dict_set "repo_details" (details_of E reply) kvs)) /\
        (lookup_fails E reply -> is_error_details (details_of E reply)) /\
        (forall repo_data,
           lookup_succeeds E reply repo_data ->
           details_of E reply =
           summary (default JNull (dict_get "stargazers_count" repo_data))
                   (default JNull (dict_get "forks_count" repo_data))
                   (default JNull (dict_get "description" repo_data))).
Proof.
  intros Hall. split.
  { intros a ev Hev (kvs & r & name & -> & Hrepo & Hname).
    eexists. by apply (enrich_activity_run E a w kvs r name). }
  set (w0 := set_heap (map_seq 0 filtered) w).
  assert (Hlook : forall i, heap w0 !! i = filtered !! i).
  { intros i. subst w0. simpl. apply lookup_map_seq_0. }
  destruct (for_each_enrich E (length filtered) 0 w0) as (w1 & Hloop & _ & Hin).
  { intros i Hi. destruct (lookup_lt_is_Some_2 filtered i) as [ev Hev]; [lia|].
    exists ev. split; [by rewrite Hlook|].
    rewrite Forall_forall in Hall. apply Hall.
    by eapply list_elem_of_lookup_2. }
  destruct (for_each_deref (seq 0 (length filtered)) w1) as (out & Hread & Hlen & Hout).
  { intros a Ha. apply elem_of_seq in Ha.
    destruct (Hin a) as (kvs & r & name & _ & _ & _ & Hnew); [lia|].
    by rewrite Hnew. }
  exists out, w1. split; [|split].
  - unfold enrich_all. unfold mbind, prog_bind at 1. fold w0.
    unfold mbind, prog_bind at 1. by rewrite Hloop.
  - by rewrite Hlen, length_seq.
  - intros i ev Hev.
    assert (Hi : (i < length filtered)%nat) by (by eapply lookup_lt_Some).
    destruct (Hin i) as (kvs & r & name & Hold & Hrepo & Hname & Hnew); [lia|].
    rewrite Hlook, Hev in Hold. injection Hold as ->.
    exists kvs, r, name. split; [done|]. split; [done|]. split; [done|].
    simpl. split; [|split].
    + rewrite (Hout i i) by (by apply lookup_seq_lt).
      rewrite Hnew. subst w0. simpl. by rewrite Nat.sub_0_r.
    + apply details_of_failure.
    + apply details_of_success.
Qed.

Lemma enrichment_failures_are_per_event_witness :
  let E := Demo.demo_env (Demo.always (URLError "timed out")) in
  Forall has_repo_name Demo.two_events /\
  exists out w',
    enrich_all E Demo.two_events Demo.empty_world = (Ret out, w') /\
    length out = length Demo.two_events.
Proof.
  intros E.
  assert (Hnamed : Forall has_repo_name Demo.two_events).
  { repeat constructor; eexists _, _, _; (split; [reflexivity|]); split; reflexivity. }
  split; [exact Hnamed|].
  destruct (proj2 (enrichment_failures_are_per_event E Demo.two_events
                     Demo.empty_world Hnamed))
    as (out & w' & Hrun & Hlen & _).
  exists out, w'. by split.
Defined.

End EnrichFacts.

(** ** Text formatting *)

Section TextFacts.
Import Format Spec.

(** The line of an event whose type is a string: it is wrapped exactly
    when [color] is set and the type is a key of [colors]. *)
Lemma text_line_string_type (E : env) (color : bool)
    (kvs : list (string * json)) (ty : string) :
  dict_get "type" kvs = Some (JStr ty) ->
  let line := plain_line E (JStr ty) (default (JStr "") (dict_get "message" kvs)) in
  text_line E color (JObj kvs) =
  Ret (match dict_get ty colors with
       | Some c => if color then c +:+ line +:+ (esc +:+ "[0m") else line
       | None => line
       end).
Proof.
  intros Hty line. unfold text_line, subscript, py_get. rewrite Hty.
  destruct color.
  - destruct (dict_get ty colors) as [c|] eqn:Hc.
    + cbn [mbind outcome_bind mret outcome_ret in_colors]. rewrite Hc.
      unfold colors_at. rewrite Hc. reflexivity.
    + cbn [mbind outcome_bind mret outcome_ret in_colors]. by rewrite Hc.
  - cbn [mbind outcome_bind mret outcome_ret].
    by destruct (dict_get ty colors).
Qed.

(** Without [color] no line is wrapped. *)
Lemma text_line_no_color (E : env) (kvs : list (string * json)) (ty : json) :
  dict_get "type" kvs = Some ty ->
  text_line E false (JObj kvs) =
  Ret (plain_line E ty (default (JStr "") (dict_get "message" kvs))).
Proof. intros Hty. unfold text_line, subscript, py_get. by rewrite Hty. Qed.

(** With [color], the three event types that have a colour are wrapped in
    it and in the reset sequence. *)
Lemma text_line_assigned (E : env) (kvs : list (string * json)) (ty c : string) :
  dict_get "type" kvs = Some (JStr ty) ->
  (ty, c) ∈ [("PushEvent", esc +:+ "[92m");
             ("PullRequestEvent", esc +:+ "[94m");
             ("IssuesEvent", esc +:+ "[93m")] ->
  text_line E true (JObj kvs) =
  Ret (c +:+ plain_line E (JStr ty) (default (JStr "") (dict_get "message" kvs))
         +:+ (esc +:+ "[0m")).
Proof.
  intros Hty Hin. rewrite (text_line_string_type E true kvs ty Hty).
  repeat (apply elem_of_cons in Hin as [[= -> ->]|Hin]; [done|]).
  by apply elem_of_nil in Hin.
Qed.

(** With [color], a type that is no key of [colors] is left as it is. *)
Lemma text_line_unassigned (E : env) (kvs : list (string * json)) (ty : string) :
  dict_get "type" kvs = Some (JStr ty) ->
  ty ∉ ["PushEvent"; "PullRequestEvent"; "IssuesEvent"; "reset"] ->
  text_line E true (JObj kvs) =
  Ret (plain_line E (JStr ty) (default (JStr "") (dict_get "message" kvs))).
Proof.
  intros Hty Hnot. rewrite (text_line_string_type E true kvs ty Hty).
  assert (Hnone : dict_get ty colors = None); [|by rewrite Hnone].
  unfold colors. cbn [dict_get].
  destruct (String.eqb_spec ty "PushEvent") as [->|_];
    [exfalso; apply Hnot; set_solver|].
  destruct (String.eqb_spec ty "PullRequestEvent") as [->|_];
    [exfalso; apply Hnot; set_solver|].
  destruct (String.eqb_spec ty "IssuesEvent") as [->|_];
    [exfalso; apply Hnot; set_solver|].
  destruct (String.eqb_spec ty "reset") as [->|_];
    [exfalso; apply Hnot; set_solver|].
  done.
Qed.

(** C5, at the input where the code departs from it.  The type ["reset"]
    is none of the three types that have a colour, yet with [color] set
    its line is wrapped in escape sequences: the reset sequence on both
    sides. *)
Theorem format_text_wraps_reset_type (E : env) :
("reset" ∉ ["PushEvent"; "PullRequestEvent"; "IssuesEvent"]) /\
  _format_text E [JObj [("type", JStr "reset")]] true =
  Ret ((esc +:+ "[0m") +:+ plain_line E (JStr "reset") (JStr "") +:+ (esc +:+ "[0m")) /\
  _format_text E [JObj [("type", JStr "reset")]] false =
  Ret (plain_line E (JStr "reset") (JStr "")).
Proof.
  split; [|split].
  - compute_done.
  - reflexivity.
  - reflexivity.
Qed.

(** The same on the sample library, character for character. *)
Lemma reset_type_line_sample :
  let E := Demo.demo_env (Demo.always (URLError "unreachable")) in
  _format_text E [JObj [("type", JStr "reset")]] true =
    Ret (String "027" "[0m- reset: " +:+ String "027" "[0m") /\
  _format_text E [Demo.push_event; JObj [("type", JStr "WatchEvent")]] true =
    Ret (String "027" "[92m- PushEvent: " +:+ String "027" "[0m" +:+
         String "010" "- WatchEvent: ").
Proof. split; vm_compute; reflexivity. Qed.

End TextFacts.

(** ** Time stamps *)

Section DatetimeFacts.
Import Datetime Spec.

Lemma digit_inv (c : ascii) (v : Z) :
  digit c = Some v -> c = digit_char v /\ (0 <= v <= 9)%Z.
Proof.
  destruct c as [[] [] [] [] [] [] [] []]; intros H; vm_compute in H;
    try discriminate; injection H as <-; (split; [reflexivity | lia]).
Qed.

Lemma match_items_lit (c d : ascii) (items : list item) (rest : string)
    (acc : list Z) :
  same_letter c d = true ->
  match_items (Lit c :: items) (String d rest) acc = match_items items rest acc.
Proof. intros H. simpl. by rewrite H. Qed.

Lemma match_items_year (items : list item) (c1 c2 c3 c4 : ascii) (rest : string)
    (acc : list Z) (a b c d : Z) (r : list Z * string) :
  digit c1 = Some a -> digit c2 = Some b -> digit c3 = Some c -> digit c4 = Some d ->
  match_items items rest (acc ++ [1000 * a + 100 * b + 10 * c + d]%Z) = Some r ->
  match_items (Directive re_Y :: items)
              (String c1 (String c2 (String c3 (String c4 rest)))) acc = Some r.
Proof.
  intros H1 H2 H3 H4 Hrest. simpl. unfold four_digits.
  rewrite H1, H2, H3, H4. by rewrite Hrest.
Qed.

(** An alternative that reads a value and lets the rest match settles the
    directive; one that reads nothing hands over to the next. *)
Lemma directive_cons_some (alt : alternative) (alts : list alternative)
    (items : list item) (s rest : string) (acc : list Z) (v : Z)
    (r : list Z * string) :
  alt s = Some (v, rest) ->
  match_items items rest (acc ++ [v]) = Some r ->
  match_items (Directive (alt :: alts) :: items) s acc = Some r.
Proof. intros Halt Hrest. simpl. by rewrite Halt, Hrest. Qed.

Lemma directive_cons_none (alt : alternative) (alts : list alternative)
    (items : list item) (s : string) (acc : list Z) :
  alt s = None ->
  match_items (Directive (alt :: alts) :: items) s acc =
  match_items (Directive alts :: items) s acc.
Proof. intros Halt. simpl. by rewrite Halt. Qed.

Lemma two_reads (lo1 hi1 lo2 hi2 : Z) (ca cb : ascii) (rest : string) (a b : Z) :
  digit ca = Some a -> digit cb = Some b ->
  between lo1 hi1 a && between lo2 hi2 b = true ->
  two lo1 hi1 lo2 hi2 (String ca (String cb rest)) = Some (10 * a + b, rest)%Z.
Proof. intros Ha Hb Hin. unfold two. by rewrite Ha, Hb, Hin. Qed.

Lemma two_fails (lo1 hi1 lo2 hi2 : Z) (ca cb : ascii) (rest : string) (a b : Z) :
  digit ca = Some a -> digit cb = Some b ->
  between lo1 hi1 a && between lo2 hi2 b = false ->
  two lo1 hi1 lo2 hi2 (String ca (String cb rest)) = None.
Proof. intros Ha Hb Hin. unfold two. by rewrite Ha, Hb, Hin. Qed.

(** Try the next two-digit alternative on the digits [a] and [b]. *)
Ltac next_alternative a b :=
  match goal with
  | |- match_items (Directive (two ?l1 ?h1 ?l2 ?h2 :: _) :: _) _ _ = _ =>
      let Hin := fresh "Hin" in
      destruct (between l1 h1 a && between l2 h2 b) eqn:Hin;
      [ eapply directive_cons_some; [by apply two_reads | eassumption]
      | rewrite directive_cons_none by (by eapply two_fails) ]
  end.

Ltac out_of_alternatives :=
  exfalso; unfold between in *;
  repeat match goal with
         | H : digit _ = Some _ |- _ => apply digit_inv in H as [_ H]
         end;
  lia.

Lemma match_items_month (items : list item) (ca cb : ascii) (rest : string)
    (acc : list Z) (a b : Z) (r : list Z * string) :
  digit ca = Some a -> digit cb = Some b ->
  (1 <= 10 * a + b <= 12)%Z ->
  match_items items rest (acc ++ [10 * a + b]%Z) = Some r ->
  match_items (Directive re_m :: items) (String ca (String cb rest)) acc = Some r.
Proof.
  intros Ha Hb Hrange Hrest. unfold re_m.
  next_alternative a b. next_alternative a b. out_of_alternatives.
Qed.

Lemma match_items_day (items : list item) (ca cb : ascii) (rest : string)
    (acc : list Z) (a b : Z) (r : list Z * string) :
  digit ca = Some a -> digit cb = Some b ->
  (1 <= 10 * a + b <= 31)%Z ->
  match_items items rest (acc ++ [10 * a + b]%Z) = Some r ->
  match_items (Directive re_d :: items) (String ca (String cb rest)) acc = Some r.
Proof.
  intros Ha Hb Hrange Hrest. unfold re_d.
  next_alternative a b. next_alternative a b. next_alternative a b.
  out_of_alternatives.
Qed.

Lemma match_items_hour (items : list item) (ca cb : ascii) (rest : string)
    (acc : list Z) (a b : Z) (r : list Z * string) :
  digit ca = Some a -> digit cb = Some b ->
  (10 * a + b <= 23)%Z ->
  match_items items rest (acc ++ [10 * a + b]%Z) = Some r ->
  match_items (Directive re_H :: items) (String ca (String cb rest)) acc = Some r.
Proof.
  intros Ha Hb Hrange Hrest. unfold re_H.
  next_alternative a b. next_alternative a b. out_of_alternatives.
Qed.

Lemma match_items_minute (items : list item) (ca cb : ascii) (rest : string)
    (acc : list Z) (a b : Z) (r : list Z * string) :
  digit ca = Some a -> digit cb = Some b ->
  (10 * a + b <= 59)%Z ->
  match_items items rest (acc ++ [10 * a + b]%Z) = Some r ->
  match_items (Directive re_M :: items) (String ca (String cb rest)) acc = Some r.
Proof.
  intros Ha Hb Hrange Hrest. unfold re_M.
  next_alternative a b. out_of_alternatives.
Qed.

Lemma match_items_second (items : list item) (ca cb : ascii) (rest : string)
    (acc : list Z) (a b : Z) (r : list Z * string) :
  digit ca = Some a -> digit cb = Some b ->
  (10 * a + b <= 59)%Z ->
  match_items items rest (acc ++ [10 * a + b]%Z) = Some r ->
  match_items (Directive re_S :: items) (String ca (String cb rest)) acc = Some r.
Proof.
  intros Ha Hb Hrange Hrest. unfold re_S.
  next_alternative a b. next_alternative a b. out_of_alternatives.
Qed.




Lemma days_in_month_le (y m : Z) : (days_in_month y m <= 31)%Z.
Proof.
  unfold days_in_month. destruct (m =? 2)%Z; [destruct (is_leap y); lia|].
  destruct (_ || _); lia.
Qed.

(** *** Numerals *)

Lemma digits_1 (c : ascii) (v : Z) : digit c = Some v -> digits 1 (String c "") v.
Proof. intros H. split; [done|]. simpl. by rewrite H. Qed.

Lemma digits_2 (c1 c2 : ascii) (a b : Z) :
  digit c1 = Some a -> digit c2 = Some b ->
  digits 2 (String c1 (String c2 "")) (10 * a + b).
Proof. intros Ha Hb. split; [done|]. simpl. rewrite Ha, Hb. f_equal; lia. Qed.

Lemma digits_4 (c1 c2 c3 c4 : ascii) (a b c d : Z) :
  digit c1 = Some a -> digit c2 = Some b -> digit c3 = Some c -> digit c4 = Some d ->
  digits 4 (String c1 (String c2 (String c3 (String c4 ""))))
           (1000 * a + 100 * b + 10 * c + d).
Proof.
  intros Ha Hb Hc Hd. split; [done|]. simpl. rewrite Ha, Hb, Hc, Hd.
  f_equal; lia.
Qed.

Lemma digits_1_inv (s : string) (v : Z) :
  digits 1 s v -> exists c, s = String c "" /\ digit c = Some v.
Proof.
  intros [Hlen Hnum]. destruct s as [|c [|c' s]]; try discriminate.
  simpl in Hnum. destruct (digit c) as [a|] eqn:Ha; [|discriminate].
  injection Hnum as <-. by exists c.
Qed.

Lemma digits_2_inv (s : string) (v : Z) :
  digits 2 s v ->
  exists c1 c2 a b,
    s = String c1 (String c2 "") /\ digit c1 = Some a /\ digit c2 = Some b /\
    v = (10 * a + b)%Z.
Proof.
  intros [Hlen Hnum]. destruct s as [|c1 [|c2 [|c' s]]]; try discriminate.
  simpl in Hnum.
  destruct (digit c1) as [a|] eqn:Ha; [|discriminate].
  destruct (digit c2) as [b|] eqn:Hb; [|discriminate].
  injection Hnum as <-. exists c1, c2, a, b. repeat split; try done; lia.
Qed.

Lemma digits_4_inv (s : string) (v : Z) :
  digits 4 s v ->
  exists c1 c2 c3 c4 a b c d,
    s = String c1 (String c2 (String c3 (String c4 ""))) /\
    digit c1 = Some a /\ digit c2 = Some b /\ digit c3 = Some c /\
    digit c4 = Some d /\ v = (1000 * a + 100 * b + 10 * c + d)%Z.
Proof.
  intros [Hlen Hnum].
  destruct s as [|c1 [|c2 [|c3 [|c4 [|c' s]]]]]; try discriminate.
  simpl in Hnum.
  destruct (digit c1) as [a|] eqn:Ha; [|discriminate].
  destruct (digit c2) as [b|] eqn:Hb; [|discriminate].
  destruct (digit c3) as [c|] eqn:Hc; [|discriminate].
  destruct (digit c4) as [d|] eqn:Hd; [|discriminate].
  injection Hnum as <-. exists c1, c2, c3, c4, a, b, c, d.
  repeat split; try done; lia.
Qed.

(** *** Every accepted time stamp is parsed *)

Lemma append_cons (c : ascii) (s t : string) :
  String c s +:+ t = String c (s +:+ t).
Proof. reflexivity. Qed.

Lemma append_empty (t : string) : "" +:+ t = t.
Proof. reflexivity. Qed.

Ltac push_append := repeat (rewrite append_cons || rewrite append_empty).

Lemma two_not_digit (lo1 hi1 lo2 hi2 : Z) (ca cb : ascii) (rest : string) :
  digit cb = None -> two lo1 hi1 lo2 hi2 (String ca (String cb rest)) = None.
Proof. intros H. unfold two. rewrite H. by destruct (digit ca). Qed.

Lemma two_no_digit (lo1 hi1 lo2 hi2 : Z) (ca : ascii) (rest : string) :
  digit ca = None -> two lo1 hi1 lo2 hi2 (String ca rest) = None.
Proof. intros H. unfold two. destruct rest; [done|]. by rewrite H. Qed.

Lemma one_no_digit (lo hi : Z) (ca : ascii) (rest : string) :
  digit ca = None -> one lo hi (String ca rest) = None.
Proof. intros H. unfold one. by rewrite H. Qed.

Lemma one_reads (lo hi : Z) (c : ascii) (rest : string) (v : Z) :
  digit c = Some v -> (lo <= v <= hi)%Z -> one lo hi (String c rest) = Some (v, rest).
Proof.
  intros H Hin. unfold one, between. rewrite H.
  by rewrite (proj2 (Z.leb_le lo v)), (proj2 (Z.leb_le v hi)) by lia.
Qed.

(** A numeral of one digit: the two-digit alternatives stop at the
    separator, the one-digit alternative reads the digit. *)
Ltac read_one_digit :=
  push_append;
  rewrite !directive_cons_none by (by apply two_not_digit);
  eapply directive_cons_some; [|eassumption];
  apply one_reads; [done|];
  repeat match goal with
         | H : digit _ = Some _ |- _ => apply digit_inv in H as [_ H]
         end;
  lia.

Lemma month_reads (items : list item) (mos : string) (v : Z) (c : ascii)
    (rest : string) (acc : list Z) (r : list Z * string) :
  numeral mos v -> (1 <= v <= 12)%Z -> digit c = None ->
  match_items items (String c rest) (acc ++ [v]) = Some r ->
  match_items (Directive re_m :: items) (mos +:+ String c rest) acc = Some r.
Proof.
  intros [H1|H2] Hrange Hc Hrest.
  - apply digits_1_inv in H1 as (ca & -> & Ha). unfold re_m. read_one_digit.
  - apply digits_2_inv in H2 as (ca & cb & a & b & -> & Ha & Hb & ->).
    push_append. by eapply match_items_month.
Qed.

Lemma day_reads (items : list item) (ds : string) (v : Z) (c : ascii)
    (rest : string) (acc : list Z) (r : list Z * string) :
  day_numeral ds v -> (1 <= v <= 31)%Z -> digit c = None ->
  match_items items (String c rest) (acc ++ [v]) = Some r ->
  match_items (Directive re_d :: items) (ds +:+ String c rest) acc = Some r.
Proof.
  intros [[H1|H2]|(s' & -> & H1)] Hrange Hc Hrest.
  - apply digits_1_inv in H1 as (ca & -> & Ha). unfold re_d. read_one_digit.
  - apply digits_2_inv in H2 as (ca & cb & a & b & -> & Ha & Hb & ->).
    push_append. by eapply match_items_day.
  - apply digits_1_inv in H1 as (ca & -> & Ha). unfold re_d.
    push_append.
    rewrite !directive_cons_none by (by apply two_no_digit).
    rewrite directive_cons_none by (by apply one_no_digit).
    eapply directive_cons_some; [|eassumption].
    unfold space_one. apply one_reads; [done|].
    apply digit_inv in Ha as [_ Ha]. lia.
Qed.

Lemma hour_reads (items : list item) (hs : string) (v : Z) (c : ascii)
    (rest : string) (acc : list Z) (r : list Z * string) :
  numeral hs v -> (v <= 23)%Z -> digit c = None ->
  match_items items (String c rest) (acc ++ [v]) = Some r ->
  match_items (Directive re_H :: items) (hs +:+ String c rest) acc = Some r.
Proof.
  intros [H1|H2] Hrange Hc Hrest.
  - apply digits_1_inv in H1 as (ca & -> & Ha). unfold re_H. read_one_digit.
  - apply digits_2_inv in H2 as (ca & cb & a & b & -> & Ha & Hb & ->).
    push_append. by eapply match_items_hour.
Qed.

Lemma minute_reads (items : list item) (mis : string) (v : Z) (c : ascii)
    (rest : string) (acc : list Z) (r : list Z * string) :
  numeral mis v -> (v <= 59)%Z -> digit c = None ->
  match_items items (String c rest) (acc ++ [v]) = Some r ->
  match_items (Directive re_M :: items) (mis +:+ String c rest) acc = Some r.
Proof.
  intros [H1|H2] Hrange Hc Hrest.
  - apply digits_1_inv in H1 as (ca & -> & Ha). unfold re_M. read_one_digit.
  - apply digits_2_inv in H2 as (ca & cb & a & b & -> & Ha & Hb & ->).
    push_append. by eapply match_items_minute.
Qed.

Lemma second_reads (items : list item) (ss : string) (v : Z) (c : ascii)
    (rest : string) (acc : list Z) (r : list Z * string) :
  numeral ss v -> (v <= 59)%Z -> digit c = None ->
  match_items items (String c rest) (acc ++ [v]) = Some r ->
  match_items (Directive re_S :: items) (ss +:+ String c rest) acc = Some r.
Proof.
  intros [H1|H2] Hrange Hc Hrest.
  - apply digits_1_inv in H1 as (ca & -> & Ha). unfold re_S. read_one_digit.
  - apply digits_2_inv in H2 as (ca & cb & a & b & -> & Ha & Hb & ->).
    push_append. by eapply match_items_second.
Qed.

Lemma checked_fields_valid (dt : datetime) :
  valid dt ->
  checked_fields [year dt; month dt; day dt; hour dt; minute dt; second dt] =
  Ret dt.
Proof.
  destruct dt as [y mo d h mi sec].
  intros (Hy & Hmo & Hd & Hh & Hmi & Hsec). simpl in *.
  unfold checked_fields. cbn [List.nth].
  rewrite (proj2 (Z.ltb_ge y 1)) by lia.
  rewrite (proj2 (Z.ltb_ge (days_in_month y mo) d)) by lia.
  by rewrite (proj2 (Z.ltb_ge 59 sec)) by lia.
Qed.

Lemma strptime_accepts (s : string) (dt : datetime) :
  accepted s dt -> strptime s = Ret dt.
Proof.
  intros (ys & mos & ds & hs & mis & ss & t & z & -> & Ht & Hz & Hy & Hmo & Hd
          & Hh & Hmi & Hs & Hvalid).
  pose proof Hvalid as (Hy1 & Hmo1 & Hd1 & Hh1 & Hmi1 & Hs1).
  pose proof (days_in_month_le (year dt) (month dt)) as Hdim.
  assert (Hm : match_items table_format
                 (ys +:+ "-" +:+ mos +:+ "-" +:+ ds +:+
                  String t (hs +:+ ":" +:+ mis +:+ ":" +:+ ss +:+ String z ""))
                 [] =
               Some ([year dt; month dt; day dt; hour dt; minute dt; second dt],
                     "")).
  { unfold table_format.
    apply digits_4_inv in Hy as (c1 & c2 & c3 & c4 & a & b & c & d & -> & Ha & Hb
                                 & Hc & Hd' & ->).
    push_append. eapply match_items_year; [done..|].
    rewrite match_items_lit by reflexivity.
    eapply month_reads; [done | lia | reflexivity |].
    rewrite match_items_lit by reflexivity.
    eapply day_reads; [done | lia | by destruct Ht as [-> | ->] |].
    rewrite match_items_lit by (by destruct Ht as [-> | ->]).
    eapply hour_reads; [done | lia | reflexivity |].
    rewrite match_items_lit by reflexivity.
    eapply minute_reads; [done | lia | reflexivity |].
    rewrite match_items_lit by reflexivity.
    eapply second_reads; [done | lia | by destruct Hz as [-> | ->] |].
    rewrite match_items_lit by (by destruct Hz as [-> | ->]).
    reflexivity. }
  unfold strptime. rewrite Hm. cbn [String.eqb].
  by apply checked_fields_valid.
Qed.

(** *** Every time stamp that is parsed is an accepted one *)

Lemma lit_inv (c : ascii) (items : list item) (s : string) (acc : list Z)
    (r : list Z * string) :
  match_items (Lit c :: items) s acc = Some r ->
  exists d rest,
    s = String d rest /\ same_letter c d = true /\
    match_items items rest acc = Some r.
Proof.
  simpl. destruct s as [|d rest]; [done|].
  destruct (same_letter c d) eqn:Hc; [|done]. intros H. by exists d, rest.
Qed.

Lemma directive_inv (alts : list alternative) (items : list item) (s : string)
    (acc : list Z) (r : list Z * string) :
  match_items (Directive alts :: items) s acc = Some r ->
  exists alt v rest,
    In alt alts /\ alt s = Some (v, rest) /\
    match_items items rest (acc ++ [v]) = Some r.
Proof.
  induction alts as [|alt alts IH]; [done|].
  intros H. simpl in H.
  destruct (alt s) as [[v rest]|] eqn:Halt.
  - destruct (match_items items rest (acc ++ [v])) as [r'|] eqn:Hrest.
    + injection H as <-. exists alt, v, rest. split; [by left|done].
    + destruct (IH H) as (alt' & v' & rest' & Hin & Hread & Hmore).
      exists alt', v', rest'. split; [by right|done].
  - destruct (IH H) as (alt' & v' & rest' & Hin & Hread & Hmore).
    exists alt', v', rest'. split; [by right|done].
Qed.

Lemma two_inv (lo1 hi1 lo2 hi2 : Z) (s rest : string) (v : Z) :
  two lo1 hi1 lo2 hi2 s = Some (v, rest) ->
  exists ca cb a b,
    s = String ca (String cb rest) /\ digit ca = Some a /\ digit cb = Some b /\
    (lo1 <= a <= hi1)%Z /\ (lo2 <= b <= hi2)%Z /\ v = (10 * a + b)%Z.
Proof.
  unfold two, between. destruct s as [|ca [|cb s]]; try done.
  destruct (digit ca) as [a|] eqn:Ha; [|done].
  destruct (digit cb) as [b|] eqn:Hb; [|done].
  destruct (_ && _) eqn:Hin; [|done]. intros H. injection H as <- <-.
  exists ca, cb, a, b. repeat split; try done; lia.
Qed.

Lemma one_inv (lo hi : Z) (s rest : string) (v : Z) :
  one lo hi s = Some (v, rest) ->
  exists c, s = String c rest /\ digit c = Some v /\ (lo <= v <= hi)%Z.
Proof.
  unfold one, between. destruct s as [|c s]; [done|].
  destruct (digit c) as [a|] eqn:Ha; [|done].
  destruct (_ && _) eqn:Hin; [|done]. intros H. injection H as <- <-.
  exists c. repeat split; try done; lia.
Qed.

Lemma space_one_inv (lo hi : Z) (s rest : string) (v : Z) :
  space_one lo hi s = Some (v, rest) ->
  exists c, s = String " " (String c rest) /\ digit c = Some v /\ (lo <= v <= hi)%Z.
Proof.
  unfold space_one. destruct s as [|sp s]; [done|].
  destruct (Ascii.eqb_spec sp " ") as [->|Hne].
  - intros H. apply one_inv in H as (c & -> & Hc & Hin). by exists c.
  - destruct sp as [[] [] [] [] [] [] [] []]; try done; by destruct Hne.
Qed.

(** What an alternative of two digits, of one digit or of a space and a
    digit has read is a numeral, and the input is the numeral followed by
    what is left. *)
Lemma two_numeral (lo1 hi1 lo2 hi2 : Z) (s rest : string) (v : Z) :
  two lo1 hi1 lo2 hi2 s = Some (v, rest) ->
  exists n, s = n +:+ rest /\ numeral n v /\
            (10 * lo1 + lo2 <= v <= 10 * hi1 + hi2)%Z.
Proof.
  intros H. apply two_inv in H as (ca & cb & a & b & -> & Ha & Hb & H1 & H2 & ->).
  exists (String ca (String cb "")). split; [done|]. split; [|lia].
  right. by apply digits_2.
Qed.

Lemma one_numeral (lo hi : Z) (s rest : string) (v : Z) :
  one lo hi s = Some (v, rest) ->
  exists n, s = n +:+ rest /\ numeral n v /\ (lo <= v <= hi)%Z.
Proof.
  intros H. apply one_inv in H as (c & -> & Hc & Hin).
  exists (String c ""). split; [done|]. split; [|done]. left. by apply digits_1.
Qed.

Ltac read_numeral H :=
  let n := fresh "n" in
  let Hn := fresh "Hn" in
  let Hin := fresh "Hin" in
  first [ apply two_numeral in H as (n & -> & Hn & Hin)
        | apply one_numeral in H as (n & -> & Hn & Hin) ];
  exists n; do 2 eexists; (split; [reflexivity|]); (split; [exact Hn|]);
  (split; [lia|]); eassumption.

Lemma year_inv (items : list item) (s : string) (acc : list Z)
    (r : list Z * string) :
  match_items (Directive re_Y :: items) s acc = Some r ->
  exists ys y rest,
    s = ys +:+ rest /\ digits 4 ys y /\
    match_items items rest (acc ++ [y]) = Some r.
Proof.
  intros H. apply directive_inv in H as (alt & v & rest & Hin & Hread & Hmore).
  destruct Hin as [<-|[]]. unfold four_digits in Hread.
  destruct s as [|c1 [|c2 [|c3 [|c4 s]]]]; try done.
  destruct (digit c1) as [a|] eqn:Ha; [|done].
  destruct (digit c2) as [b|] eqn:Hb; [|done].
  destruct (digit c3) as [c|] eqn:Hc; [|done].
  destruct (digit c4) as [d|] eqn:Hd; [|done].
  injection Hread as <- <-.
  exists (String c1 (String c2 (String c3 (String c4 "")))),
         (1000 * a + 100 * b + 10 * c + d)%Z, s.
  split; [done|]. split; [by apply digits_4|done].
Qed.

Lemma month_inv (items : list item) (s : string) (acc : list Z)
    (r : list Z * string) :
  match_items (Directive re_m :: items) s acc = Some r ->
  exists mos v rest,
    s = mos +:+ rest /\ numeral mos v /\ (1 <= v <= 12)%Z /\
    match_items items rest (acc ++ [v]) = Some r.
Proof.
  intros H. apply directive_inv in H as (alt & v & rest & Hin & Hread & Hmore).
  destruct Hin as [<-|[<-|[<-|[]]]]; read_numeral Hread.
Qed.

Lemma day_inv (items : list item) (s : string) (acc : list Z)
    (r : list Z * string) :
  match_items (Directive re_d :: items) s acc = Some r ->
  exists ds v rest,
    s = ds +:+ rest /\ day_numeral ds v /\ (1 <= v <= 31)%Z /\
    match_items items rest (acc ++ [v]) = Some r.
Proof.
  intros H. apply directive_inv in H as (alt & v & rest & Hin & Hread & Hmore).
  destruct Hin as [<-|[<-|[<-|[<-|[<-|[]]]]]].
  1-4: (first [ apply two_numeral in Hread as (n & -> & Hn & Hin)
              | apply one_numeral in Hread as (n & -> & Hn & Hin) ];
        eexists n, _, _; (split; [reflexivity|]); (split; [by left|]);
        (split; [lia|]); eassumption).
  apply space_one_inv in Hread as (c & -> & Hc & Hin).
  exists (String " " (String c "")), v, rest. split; [done|].
  split; [|split; [lia|done]].
  right. exists (String c ""). split; [done|]. by apply digits_1.
Qed.

Lemma hour_inv (items : list item) (s : string) (acc : list Z)
    (r : list Z * string) :
  match_items (Directive re_H :: items) s acc = Some r ->
  exists hs v rest,
    s = hs +:+ rest /\ numeral hs v /\ (v <= 23)%Z /\
    match_items items rest (acc ++ [v]) = Some r.
Proof.
  intros H. apply directive_inv in H as (alt & v & rest & Hin & Hread & Hmore).
  destruct Hin as [<-|[<-|[<-|[]]]]; read_numeral Hread.
Qed.

Lemma minute_inv (items : list item) (s : string) (acc : list Z)
    (r : list Z * string) :
  match_items (Directive re_M :: items) s acc = Some r ->
  exists mis v rest,
    s = mis +:+ rest /\ numeral mis v /\ (v <= 59)%Z /\
    match_items items rest (acc ++ [v]) = Some r.
Proof.
  intros H. apply directive_inv in H as (alt & v & rest & Hin & Hread & Hmore).
  destruct Hin as [<-|[<-|[]]]; read_numeral Hread.
Qed.

Lemma second_inv (items : list item) (s : string) (acc : list Z)
    (r : list Z * string) :
  match_items (Directive re_S :: items) s acc = Some r ->
  exists ss v rest,
    s = ss +:+ rest /\ numeral ss v /\ (v <= 61)%Z /\
    match_items items rest (acc ++ [v]) = Some r.
Proof.
  intros H. apply directive_inv in H as (alt & v & rest & Hin & Hread & Hmore).
  destruct Hin as [<-|[<-|[<-|[]]]]; read_numeral Hread.
Qed.

(** The literal characters of the format, whatever the case. *)
Lemma same_letter_dash (d : ascii) : same_letter "-" d = true -> d = "-"%char.
Proof.
  intros H. destruct d as [[] [] [] [] [] [] [] []]; vm_compute in H;
    try discriminate; reflexivity.
Qed.

Lemma same_letter_colon (d : ascii) : same_letter ":" d = true -> d = ":"%char.
Proof.
  intros H. destruct d as [[] [] [] [] [] [] [] []]; vm_compute in H;
    try discriminate; reflexivity.
Qed.

Lemma same_letter_T (d : ascii) :
  same_letter "T" d = true -> (d = "T" \/ d = "t")%char.
Proof.
  intros H. destruct d as [[] [] [] [] [] [] [] []]; vm_compute in H;
    try discriminate; first [by left | by right].
Qed.

Lemma same_letter_Z (d : ascii) :
  same_letter "Z" d = true -> (d = "Z" \/ d = "z")%char.
Proof.
  intros H. destruct d as [[] [] [] [] [] [] [] []]; vm_compute in H;
    try discriminate; first [by left | by right].
Qed.

Lemma table_format_inv (s : string) (fields : list Z) (rest : string) :
  match_items table_format s [] = Some (fields, rest) ->
  exists ys mos ds hs mis ss t z y mo d h mi sec,
    s = ys +:+ "-" +:+ mos +:+ "-" +:+ ds +:+
        String t (hs +:+ ":" +:+ mis +:+ ":" +:+ ss +:+ String z rest) /\
    fields = [y; mo; d; h; mi; sec] /\
    (t = "T" \/ t = "t")%char /\ (z = "Z" \/ z = "z")%char /\
    digits 4 ys y /\
    numeral mos mo /\ (1 <= mo <= 12)%Z /\
    day_numeral ds d /\ (1 <= d <= 31)%Z /\
    numeral hs h /\ (h <= 23)%Z /\
    numeral mis mi /\ (mi <= 59)%Z /\
    numeral ss sec.
Proof.
  unfold table_format. intros H.
  apply year_inv in H as (ys & y & r1 & -> & Hy & H).
  apply lit_inv in H as (p1 & r2 & -> & Hp1 & H). apply same_letter_dash in Hp1 as ->.
  apply month_inv in H as (mos & mo & r3 & -> & Hmo & Hmo' & H).
  apply lit_inv in H as (p2 & r4 & -> & Hp2 & H). apply same_letter_dash in Hp2 as ->.
  apply day_inv in H as (ds & d & r5 & -> & Hd & Hd' & H).
  apply lit_inv in H as (t & r6 & -> & Ht & H). apply same_letter_T in Ht.
  apply hour_inv in H as (hs & h & r7 & -> & Hh & Hh' & H).
  apply lit_inv in H as (p3 & r8 & -> & Hp3 & H). apply same_letter_colon in Hp3 as ->.
  apply minute_inv in H as (mis & mi & r9 & -> & Hmi & Hmi' & H).
  apply lit_inv in H as (p4 & r10 & -> & Hp4 & H). apply same_letter_colon in Hp4 as ->.
  apply second_inv in H as (ss & sec & r11 & -> & Hs & Hs' & H).
  apply lit_inv in H as (z & r12 & -> & Hz & H). apply same_letter_Z in Hz.
  simpl in H. injection H as <- <-.
  exists ys, mos, ds, hs, mis, ss, t, z, y, mo, d, h, mi, sec.
  repeat (split; [first [reflexivity | done] |]). done.
Qed.

Lemma strptime_accepted (s : string) (dt : datetime) :
  strptime s = Ret dt -> accepted s dt.
Proof.
  unfold strptime. intros H.
  destruct (match_items table_format s []) as [[fields rest]|] eqn:Hm; [|done].
  destruct (String.eqb_spec rest "") as [->|_]; [|done].
  apply table_format_inv in Hm
    as (ys & mos & ds & hs & mis & ss & t & z & y & mo & d & h & mi & sec & -> & ->
        & Ht & Hz & Hy & Hmo & Hmo' & Hd & Hd' & Hh & Hh' & Hmi & Hmi' & Hs).
  unfold checked_fields, value_error in H. cbn [List.nth] in H.
  destruct (Z.ltb_spec y 1); [done|].
  destruct (Z.ltb_spec (days_in_month y mo) d); [done|].
  destruct (Z.ltb_spec 59 sec); [done|].
  injection H as <-.
  exists ys, mos, ds, hs, mis, ss, t, z.
  repeat (split; [first [reflexivity | done | simpl; lia] |]). simpl. lia.
Qed.

(** [strptime] returns for the accepted time stamps and for no other. *)
Lemma strptime_iff (s : string) (dt : datetime) :
  strptime s = Ret dt <-> accepted s dt.
Proof. split; [apply strptime_accepted | apply strptime_accepts]. Qed.


End DatetimeFacts.

(** ** Table formatting *)

Section TableFacts.
Import Datetime Format Main Spec.

Lemma bind_no_exit {A B : Type} (m : outcome A) (f : A -> outcome B) :
  no_exit m -> (forall a, no_exit (f a)) -> no_exit (m ≫= f).
Proof.
  intros Hm Hf code. destruct m as [a|e|c]; simpl; [apply Hf|done|].
  by destruct (Hm c).
Qed.

Lemma subscript_no_exit (v : json) (k : string) : no_exit (subscript v k).
Proof.
  intros code. destruct v; simpl; try done. by destruct (dict_get k kvs).
Qed.

Lemma py_get_no_exit (v : json) (k : string) (d : json) : no_exit (py_get v k d).
Proof. intros code. by destruct v. Qed.

Lemma strptime_no_exit (s : string) : no_exit (strptime s).
Proof.
  intros code. unfold strptime, value_error.
  destruct (match_items table_format s []) as [[fields rest]|]; [|done].
  destruct (String.eqb rest ""); [|done].
  unfold checked_fields, value_error. cbv zeta.
  destruct (_ <? 1)%Z; [done|]. destruct (days_in_month _ _ <? _)%Z; [done|].
  by destruct (59 <? _)%Z.
Qed.

Lemma date_cell_no_exit (act : json) : no_exit (date_cell act).
Proof.
  unfold date_cell. apply bind_no_exit; [apply subscript_no_exit|].
  intros v. apply bind_no_exit; [|done].
  destruct v; try done. apply strptime_no_exit.
Qed.

Lemma table_row_no_exit (E : env) (act : json) : no_exit (table_row E act).
Proof.
  unfold table_row.
  apply bind_no_exit; [apply date_cell_no_exit|]. intros date.
  apply bind_no_exit; [apply subscript_no_exit|]. intros ty.
  apply bind_no_exit; [apply subscript_no_exit|]. intros repo.
  apply bind_no_exit; [apply subscript_no_exit|]. intros name.
  apply bind_no_exit; [apply py_get_no_exit|]. done.
Qed.








End TableFacts.

(** * Further properties of the code *)

(** ** Cache store: reads after writes *)

Section CacheMoreFacts.
Import Cache Fetch Main Spec.

Lemma select_fresh_after_stale_write (user text : string) (now t : Z)
    (rows : list row) :
  (t < now - 600)%Z ->
  select_fresh user now (delete_user user rows ++ [Row user text t]) = [].
Proof.
  intros Hstale. unfold select_fresh. rewrite List.filter_app.
  fold (select_fresh user now (delete_user user rows)).
  rewrite select_fresh_deleted. simpl. rewrite String.eqb_refl. unfold fresh.
  simpl. by rewrite (proj2 (Z.leb_gt _ _)) by lia.
Qed.

(** X1.  A cache write followed by a cache read for the same user gives
    back what was written as long as the entry is at most 600 seconds old
    (the bound included), and [None] after that, whatever the table held
    before and whatever was written; the read changes nothing. *)
Theorem cache_read_after_write (E : env) (user : string) (data : json)
    (w : world) (now : Z) :
  json_loads E (json_dumps E data) = inr data ->
  let w1 := set_clock now (_cache_activities E user data w).2 in
  _get_cached_activities E user w1 =
  (Ret (if (now - 600 <=? clock w)%Z then data else JNull), w1).
Proof.
  intros Hrt w1. destruct (Z.leb_spec (now - 600) (clock w)) as [Hfresh|Hstale].
  - by apply get_cached_after_write.
  - subst w1. unfold _get_cached_activities. simpl.
    by rewrite select_fresh_after_stale_write.
Qed.

Lemma cache_read_after_write_witness :
  let E := Demo.demo_env (Demo.always (URLError "unreachable")) in
  json_loads E (json_dumps E (JArr [])) = inr (JArr []) /\
  _get_cached_activities E "octocat"
    (set_clock 1600 (_cache_activities E "octocat" (JArr []) Demo.empty_world).2)
  = (Ret (JArr []),
     set_clock 1600 (_cache_activities E "octocat" (JArr []) Demo.empty_world).2).
Proof.
  intros E.
  assert (Hrt : json_loads E (json_dumps E (JArr [])) = inr (JArr []))
    by reflexivity.
  split; [exact Hrt|].
  exact (cache_read_after_write E "octocat" (JArr []) Demo.empty_world 1600 Hrt).
Defined.

Lemma select_fresh_other_user (user other text : string) (now t : Z)
    (rows : list row) :
  other <> user ->
  select_fresh other now (delete_user user rows ++ [Row user text t]) =
  select_fresh other now rows.
Proof.
  intros Hne. unfold select_fresh. rewrite List.filter_app. simpl.
  destruct (String.eqb_spec user other) as [Heq|_]; [by subst|].
  simpl. rewrite app_nil_r. unfold delete_user.
  induction rows as [|r rows IH]; [done|]. simpl.
  destruct (String.eqb_spec (row_username r) user) as [Hu|Hu]; simpl.
  - rewrite IH. destruct (String.eqb_spec (row_username r) other) as [Ho|_];
      [congruence|done].
  - by rewrite IH.
Qed.

(** X2.  A cache write for one user changes no read for another user. *)
Theorem cache_write_other_user (E : env) (user other : string) (data : json)
    (w : world) :
  other <> user ->
  let w1 := (_cache_activities E user data w).2 in
  (_get_cached_activities E other w1).1 = (_get_cached_activities E other w).1.
Proof.
  intros Hne w1. subst w1. unfold _get_cached_activities. simpl.
  rewrite select_fresh_other_user by done.
  by destruct (select_fresh other (clock w) (db w)).
Qed.

Lemma cache_write_other_user_witness :
  let E := Demo.demo_env (Demo.always (URLError "unreachable")) in
  let w := Demo.cached_world (JArr [Demo.push_event]) in
  "octocat" <> "hubot" /\
  (_get_cached_activities E "octocat"
     (_cache_activities E "hubot" (JArr []) w).2).1 = Ret (JArr [Demo.push_event]).
Proof.
  intros E w.
  assert (Hne : "octocat" <> "hubot") by discriminate.
  split; [exact Hne|].
  exact (eq_trans (cache_write_other_user E "hubot" "octocat" (JArr []) w Hne)
                  eq_refl).
Defined.

Lemma get_cached_world (E : env) (user : string) (w : world) :
  (_get_cached_activities E user w).2 = w.
Proof.
  unfold _get_cached_activities. by destruct (select_fresh user (clock w) (db w)).
Qed.

(** X3.  With caching on, a fresh cache entry whose text is not JSON makes
    the run fail before any request is sent: it prints "Error processing
    API response" and ends with status 1, and the entry stays in the
    table. *)
Theorem corrupt_cache_entry_is_fatal (E : env) (a : args) (w : world)
    (r : row) (rest : list row) (msg : string) :
  arg_no_cache a = true ->
  select_fresh (arg_username a) (clock w) (db w) = r :: rest ->
  json_loads E (row_data r) = inl msg ->
  run E a w = (1%Z, set_stdout (stdout w ++ ["Error processing API response"]) w).
Proof.
  intros Hcache Hsel Hbad.
  unfold run, main, _init_cache, try_except, pipeline, mbind, prog_bind, mret,
    prog_ret, fetch_activities, _get_cached_activities, mbind, prog_bind, lift,
    loads.
  by rewrite Hcache, Hsel, Hbad.
Qed.

Lemma corrupt_cache_entry_is_fatal_witness :
  let E := Demo.demo_env (Demo.always (URLError "unreachable")) in
  let w := World [Row "octocat" "<html>" 1000] 1000 [] [] ∅ in
  arg_no_cache Demo.enrich_args = true /\
  run E Demo.enrich_args w =
    (1%Z, set_stdout (stdout w ++ ["Error processing API response"]) w).
Proof.
  intros E w. split; [reflexivity|].
  exact (corrupt_cache_entry_is_fatal E Demo.enrich_args w
           (Row "octocat" "<html>" 1000) [] "Expecting value: line 1 column 1 (char 0)"
           eq_refl eq_refl eq_refl).
Defined.

End CacheMoreFacts.

(** ** Activity fetcher: the successful request and the cache *)

Section FetchMoreFacts.
Import Cache Fetch Main Spec.

Lemma request_events_body (E : env) (user : string) (token : option string)
    (use_cache : bool) (w : world) (text : string) (data : json) :
  urlopen E (length (net_log w)) (events_request user token) = Body text ->
  json_loads E text = inr data ->
  request_events E user token use_cache w =
  (Ret data,
   let sent := set_net_log (net_log w ++ [events_request user token]) w in
   if use_cache
   then set_db (delete_user user (db w) ++ [Row user (json_dumps E data) (clock w)])
               sent
   else sent).
Proof.
  intros Hreply Hload.
  unfold request_events, mbind, prog_bind, send, lift, loads. simpl.
  rewrite Hreply, Hload. by destruct use_cache.
Qed.

(** X4.  When the fetch goes to the network and the body of the reply is
    JSON, the parsed value is returned after exactly one request and
    nothing is printed; with caching on, the table then holds one row for
    the user, the new one, after the rows of the other users; with caching
    off the table is left alone. *)
Theorem fetch_success (E : env) (user : string) (token : option string)
    (use_cache : bool) (w : world) (text : string) (data : json) :
  reaches_network E user use_cache w ->
  urlopen E (length (net_log w)) (events_request user token) = Body text ->
  json_loads E text = inr data ->
  exists w',
    fetch_activities E user token use_cache w = (Ret data, w') /\
    net_log w' = net_log w ++ [events_request user token] /\
    stdout w' = stdout w /\
    db w' = (if use_cache
             then filter (fun r => row_username r <> user) (db w) ++
                  [Row user (json_dumps E data) (clock w)]
             else db w).
Proof.
  intros Hmiss Hreply Hload. eexists. split.
  - rewrite (fetch_miss E user token use_cache w Hmiss).
    by apply request_events_body with text.
  - destruct use_cache; simpl; [|done]. by rewrite delete_user_filter.
Qed.

Lemma fetch_success_witness :
  let E := Demo.demo_env (Demo.always (Body (Demo.demo_dumps (JArr Demo.two_events)))) in
  reaches_network E "octocat" true Demo.empty_world /\
  exists w',
    fetch_activities E "octocat" None true Demo.empty_world =
      (Ret (JArr Demo.two_events), w').
Proof.
  intros E.
  assert (Hmiss : reaches_network E "octocat" true Demo.empty_world).
  { right. exists JNull. split; reflexivity. }
  split; [exact Hmiss|].
  destruct (fetch_success E "octocat" None true Demo.empty_world
              (Demo.demo_dumps (JArr Demo.two_events)) (JArr Demo.two_events)
              Hmiss eq_refl eq_refl) as (w' & Hrun & _).
  by exists w'.
Defined.

(** X5.  After a successful fetch with caching on, a second fetch for the
    same user within 600 seconds returns the same value without sending a
    request, whatever token it is given, provided the value is not falsy
    (an empty list, say) and survives [json.dumps] and [json.loads]. *)
Theorem second_fetch_is_cached (E : env) (user : string)
    (token token' : option string) (w : world) (text : string) (data : json)
    (now : Z) :
  reaches_network E user true w ->
  urlopen E (length (net_log w)) (events_request user token) = Body text ->
  json_loads E text = inr data ->
  json_loads E (json_dumps E data) = inr data ->
  truthy data = true ->
  (now - 600 <= clock w)%Z ->
  let w1 := set_clock now (fetch_activities E user token true w).2 in
  fetch_activities E user token' true w1 = (Ret data, w1).
Proof.
  intros Hmiss Hreply Hload Hrt Htrue Hfresh w1.
  apply fetch_hit; [|done]. subst w1.
  rewrite (fetch_miss E user token true w Hmiss).
  rewrite (request_events_body E user token true w text data Hreply Hload).
  unfold _get_cached_activities. simpl.
  rewrite select_fresh_after_write by done. unfold lift, loads. simpl.
  by rewrite Hrt.
Qed.

Lemma second_fetch_is_cached_witness :
  let E := Demo.demo_env (Demo.always (Body (Demo.demo_dumps (JArr Demo.two_events)))) in
  let w1 := set_clock 1300 (fetch_activities E "octocat" None true Demo.empty_world).2 in
  reaches_network E "octocat" true Demo.empty_world /\
  (1300 - 600 <= clock Demo.empty_world)%Z /\
  fetch_activities E "octocat" (Some "secret") true w1 =
    (Ret (JArr Demo.two_events), w1).
Proof.
  intros E w1.
  assert (Hmiss : reaches_network E "octocat" true Demo.empty_world).
  { right. exists JNull. split; reflexivity. }
  assert (Hfresh : (1300 - 600 <= clock Demo.empty_world)%Z) by (simpl; lia).
  split; [exact Hmiss|]. split; [exact Hfresh|].
  exact (second_fetch_is_cached E "octocat" None (Some "secret") Demo.empty_world
           (Demo.demo_dumps (JArr Demo.two_events)) (JArr Demo.two_events) 1300
           Hmiss eq_refl eq_refl eq_refl eq_refl Hfresh).
Defined.

Lemma on_http_error_db (E : env) (code : Z) (reason : string)
    (headers : string -> option string) (w : world) :
  db (on_http_error E code reason headers w).2 = db w /\
  forall data, (on_http_error E code reason headers w).1 <> Ret data.
Proof.
  rewrite on_http_error_cases. case_bool_decide; [|done].
  destruct (py_int E _) as [e|epoch]; [done|].
  by destruct (fromtimestamp E epoch).
Qed.

Lemma request_events_db (E : env) (user : string) (token : option string)
    (use_cache : bool) (w : world) :
  db (request_events E user token use_cache w).2 = db w \/
  (use_cache = true /\
   exists data, (request_events E user token use_cache w).1 = Ret data).
Proof.
  unfold request_events, mbind, prog_bind, send. simpl.
  destruct (urlopen E _ _) as [code reason headers|reason|e|text].
  - left. by rewrite (proj1 (on_http_error_db _ _ _ _ _)).
  - by left.
  - by left.
  - unfold lift, loads. destruct (json_loads E text) as [msg|data]; [by left|].
    destruct use_cache; [right|by left]. split; [done|]. by exists data.
Qed.

(** X6.  The fetch writes the cache only when caching is on and it
    returns a value, and it sends one request at most: there is no retry,
    and a fetch that fails leaves the table as it was. *)
Theorem fetch_writes_cache_only_on_success (E : env) (user : string)
    (token : option string) (use_cache : bool) (w : world) :
  let r := fetch_activities E user token use_cache w in
  (db r.2 = db w \/ (use_cache = true /\ exists data, r.1 = Ret data)) /\
  (net_log r.2 = net_log w \/
   net_log r.2 = net_log w ++ [events_request user token]).
Proof.
  intros r. subst r. unfold fetch_activities, mbind, prog_bind, mret, prog_ret.
  destruct use_cache.
  - pose proof (get_cached_world E user w) as Hw.
    destruct (_get_cached_activities E user w) as [[cached|e|code] w0];
      simpl in Hw; subst w0; [|split; by left..].
    destruct (truthy cached); [split; by left|].
    split; [apply request_events_db|right; apply request_events_net_log].
  - split; [apply request_events_db|right; apply request_events_net_log].
Qed.

(** X7.  With caching off the cache is neither read nor written: a fresh
    entry for the user does not keep the request from being sent, and the
    table is the same afterwards, whatever the reply. *)
Theorem no_cache_bypasses_cache (E : env) (user : string)
    (token : option string) (w : world) :
  let r := fetch_activities E user token false w in
  net_log r.2 = net_log w ++ [events_request user token] /\
  db r.2 = db w.
Proof.
  intros r. subst r.
  change (fetch_activities E user token false w)
    with (request_events E user token false w).
  split; [apply request_events_net_log|].
  destruct (request_events_db E user token false w) as [Hdb|[Hfalse _]];
    [done|discriminate].
Qed.

(** X8.  When the body of the reply of the primary fetch is not JSON, the
    run prints "Error processing API response" and ends with status 1;
    one request was sent and the cache was not written. *)
Theorem malformed_response_is_fatal (E : env) (a : args) (w : world)
    (text msg : string) :
  reaches_network E (arg_username a) (arg_no_cache a) w ->
  urlopen E (length (net_log w))
          (events_request (arg_username a) (arg_token a)) = Body text ->
  json_loads E text = inl msg ->
  run E a w =
  (1%Z,
   set_stdout (stdout w ++ ["Error processing API response"])
     (set_net_log (net_log w ++ [events_request (arg_username a) (arg_token a)]) w)).
Proof.
  intros Hmiss Hreply Hbad.
  assert (Hfetch : fetch_activities E (arg_username a) (arg_token a)
                     (arg_no_cache a) w =
                   (Raise (Exn JSONDecodeError msg),
                    set_net_log (net_log w ++ [events_request (arg_username a)
                                                 (arg_token a)]) w)).
  { rewrite (fetch_miss E _ _ _ w Hmiss).
    unfold request_events, mbind, prog_bind, send, lift, loads. simpl.
    by rewrite Hreply, Hbad. }
  unfold run, main, _init_cache, try_except, pipeline, mbind, prog_bind, mret,
    prog_ret. by rewrite Hfetch.
Qed.

Lemma malformed_response_is_fatal_witness :
  let E := Demo.demo_env (Demo.always (Body "<html>")) in
  reaches_network E (arg_username Demo.plain_args) (arg_no_cache Demo.plain_args)
                  Demo.empty_world /\
  (run E Demo.plain_args Demo.empty_world).1 = 1%Z.
Proof.
  intros E.
  assert (Hmiss : reaches_network E (arg_username Demo.plain_args)
                    (arg_no_cache Demo.plain_args) Demo.empty_world)
    by (left; reflexivity).
  split; [exact Hmiss|].
  exact (f_equal fst
           (malformed_response_is_fatal E Demo.plain_args Demo.empty_world
              "<html>" "Expecting value: line 1 column 1 (char 0)"
              Hmiss eq_refl eq_refl)).
Defined.

End FetchMoreFacts.

(** ** Filter stage: algebra and errors *)

Section FilterMoreFacts.
Import Filter Main Spec.

Lemma filter_all {A : Type} (P : A -> Prop) `{!forall x, Decision (P x)}
    (l : list A) :
  Forall P l -> filter P l = l.
Proof.
  induction 1 as [|x l Hx _ IH]; [done|].
  by rewrite filter_cons_True, IH.
Qed.

Lemma records_filter (P : json -> Prop) `{!forall x, Decision (P x)}
    (l : list json) :
  Forall is_record l -> Forall is_record (filter P l).
Proof.
  rewrite !Forall_forall. intros Hall ev Hin.
  apply list_elem_of_filter in Hin as [_ Hin]. by apply Hall.
Qed.

(** X9.  Without filters (each of the two sets absent or empty) every
    event record is kept: the output is the input. *)
Theorem no_filter_keeps_all (activities : list json) (filters : filter_spec) :
  Forall is_record activities ->
  types filters = None \/ types filters = Some [] ->
  repos filters = None \/ repos filters = Some [] ->
  filter_activities activities filters = Ret activities.
Proof.
  intros Hall Ht Hr. rewrite filter_activities_records by done.
  f_equal. apply filter_all. apply Forall_forall. intros ev _. split.
  - destruct Ht as [-> | ->]; simpl; auto.
  - destruct Hr as [-> | ->]; simpl; auto.
Qed.

Lemma no_filter_keeps_all_witness :
  Forall is_record Demo.two_events /\
  filter_activities Demo.two_events (FilterSpec (Some []) None) =
    Ret Demo.two_events.
Proof.
  assert (Hrec : Forall is_record Demo.two_events) by (repeat constructor).
  split; [exact Hrec|].
  exact (no_filter_keeps_all Demo.two_events (FilterSpec (Some []) None) Hrec
           (or_intror eq_refl) (or_introl eq_refl)).
Defined.

(** X10.  Filtering is idempotent: filtering the output once more with the
    same filters gives the same list. *)
Theorem filter_activities_idempotent (activities out : list json)
    (filters : filter_spec) :
  Forall is_record activities ->
  filter_activities activities filters = Ret out ->
  filter_activities out filters = Ret out.
Proof.
  intros Hall Hrun. rewrite filter_activities_records in Hrun by done.
  injection Hrun as <-.
  rewrite filter_activities_records by (by apply records_filter).
  f_equal. by apply list_filter_filter_l.
Qed.

Lemma filter_activities_idempotent_witness :
  Forall is_record Demo.two_events /\
  filter_activities Demo.two_events Demo.only_push = Ret [Demo.push_event] /\
  filter_activities [Demo.push_event] Demo.only_push = Ret [Demo.push_event].
Proof.
  assert (Hrec : Forall is_record Demo.two_events) by (repeat constructor).
  assert (Hrun : filter_activities Demo.two_events Demo.only_push =
                 Ret [Demo.push_event]) by reflexivity.
  split; [exact Hrec|]. split; [exact Hrun|].
  exact (filter_activities_idempotent Demo.two_events [Demo.push_event]
           Demo.only_push Hrec Hrun).
Defined.

(** X11.  The two dimensions are independent: filtering by type and by
    repository at once is filtering by type first and by repository
    after. *)
Theorem filter_by_type_then_repo (activities : list json)
    (ts rs : option (list json)) :
  Forall is_record activities ->
  filter_activities activities (FilterSpec ts None)
    ≫= (fun kept => filter_activities kept (FilterSpec None rs)) =
  filter_activities activities (FilterSpec ts rs).
Proof.
  intros Hall. rewrite !filter_activities_records by done. simpl.
  rewrite filter_activities_records by (by apply records_filter).
  f_equal. rewrite list_filter_filter. apply list_filter_iff.
  intros ev. unfold keeps. simpl. tauto.
Qed.

Lemma filter_by_type_then_repo_witness :
  Forall is_record Demo.two_events /\
  filter_activities Demo.two_events (FilterSpec (Some [JStr "IssuesEvent"]) None)
    ≫= (fun kept => filter_activities kept (FilterSpec None (Some [JStr "a/b"]))) =
  filter_activities Demo.two_events
    (FilterSpec (Some [JStr "IssuesEvent"]) (Some [JStr "a/b"])).
Proof.
  assert (Hrec : Forall is_record Demo.two_events) by (repeat constructor).
  split; [exact Hrec|].
  exact (filter_by_type_then_repo Demo.two_events (Some [JStr "IssuesEvent"])
           (Some [JStr "a/b"]) Hrec).
Defined.

Lemma activity_match_non_record (filters : filter_spec) (ev : json) :
  ~ is_record ev ->
  exists msg, activity_match filters ev = Raise (Exn AttributeError msg).
Proof.
  intros Hnot. unfold activity_match.
  destruct ev as [| | | | | |kvs]; simpl; try by eexists.
  simpl in Hnot.
  destruct (dict_get "repo" kvs) as [[| | | | | |r]|]; simpl;
    try (exfalso; by apply Hnot); by eexists.
Qed.

(** X12.  On a list that holds something else than event records the
    filter raises [AttributeError] at the first such element, whatever
    the filters, even when there are none: nothing is returned, not even
    the records before it. *)
Theorem filter_raises_at_first_non_record (before after : list json)
    (bad : json) (filters : filter_spec) :
  Forall is_record before ->
  ~ is_record bad ->
  exists msg,
    filter_activities (before ++ bad :: after) filters =
    Raise (Exn AttributeError msg).
Proof.
  intros Hall Hbad. unfold filter_activities. generalize (@nil json) as acc.
  induction Hall as [|ev rest Hev _ IH]; intros acc; simpl.
  - destruct (activity_match_non_record filters bad Hbad) as [msg ->].
    by exists msg.
  - rewrite (activity_match_record _ _ Hev). simpl. apply IH.
Qed.

Lemma filter_raises_at_first_non_record_witness :
  Forall is_record [Demo.push_event] /\ ~ is_record (JStr "message") /\
  exists msg,
    filter_activities ([Demo.push_event] ++ JStr "message" :: [Demo.issues_event])
                      Demo.no_filter =
    Raise (Exn AttributeError msg).
Proof.
  assert (Hrec : Forall is_record [Demo.push_event]) by (repeat constructor).
  assert (Hbad : ~ is_record (JStr "message")) by (intros H; exact H).
  split; [exact Hrec|]. split; [exact Hbad|].
  exact (filter_raises_at_first_non_record [Demo.push_event] [Demo.issues_event]
           (JStr "message") Demo.no_filter Hrec Hbad).
Defined.

(** X13.  Whatever the limit, the selected events are a prefix of the
    filtered events: a limit [N >= 0] keeps the first [N], a limit
    [N < 0] drops the last [-N] (a list shorter than that is emptied). *)
Theorem select_any_limit (activities : list json) (filters : filter_spec)
    (limit : Z) :
  Forall is_record activities ->
  let filtered := filter (keeps filters) activities in
  select activities filters limit =
  Ret (take (if (limit <? 0)%Z
             then length filtered - Z.to_nat (- limit)
             else Z.to_nat limit)%nat filtered).
Proof.
  intros Hall filtered. unfold select.
  rewrite filter_activities_records by done. simpl. f_equal.
  unfold slice_to. fold filtered. destruct (limit <? 0)%Z eqn:Hneg; [|done].
  apply Z.ltb_lt in Hneg. f_equal. lia.
Qed.

Lemma select_any_limit_witness :
  Forall is_record Demo.two_events /\
  select Demo.two_events Demo.no_filter (-1) =
  Ret (take (length (filter (keeps Demo.no_filter) Demo.two_events)
             - Z.to_nat (- -1))%nat
            (filter (keeps Demo.no_filter) Demo.two_events)).
Proof.
  assert (Hrec : Forall is_record Demo.two_events) by (repeat constructor).
  split; [exact Hrec|].
  exact (select_any_limit Demo.two_events Demo.no_filter (-1) Hrec).
Defined.

End FilterMoreFacts.

(** ** Enrichment stage: requests and errors *)

Section EnrichMoreFacts.
Import Enrich Spec.

(** X14.  For an event dict without [repo], or whose [repo] is a dict
    without [name], [enrich_activity] raises [KeyError] before anything
    else happens: no request is sent and no [repo_details] is attached. *)
Theorem enrich_without_repo_name (E : env) (activity : nat) (w : world)
    (ev : json) :
  heap w !! activity = Some ev ->
  lacks_repo_name ev ->
  exists key, enrich_activity E activity w = (Raise (Exn KeyError key), w).
Proof.
  intros Hev (kvs & -> & Hrepo).
  unfold enrich_activity, mbind, prog_bind, deref, lift. rewrite Hev. simpl.
  destruct Hrepo as [Hnone|(r & Hr & Hname)].
  - rewrite Hnone. by eexists.
  - rewrite Hr. simpl. rewrite Hname. by eexists.
Qed.

Lemma enrich_without_repo_name_witness :
  let E := Demo.demo_env (Demo.always (Body (Demo.demo_dumps Demo.repo_reply))) in
  let w := set_heap {[ 0%nat := Demo.bare_event ]} Demo.empty_world in
  heap w !! 0%nat = Some Demo.bare_event /\
  lacks_repo_name Demo.bare_event /\
  exists key, enrich_activity E 0 w = (Raise (Exn KeyError key), w).
Proof.
  intros E w.
  assert (Hev : heap w !! 0%nat = Some Demo.bare_event) by reflexivity.
  assert (Hlacks : lacks_repo_name Demo.bare_event).
  { eexists. split; [reflexivity|]. left. reflexivity. }
  split; [exact Hev|]. split; [exact Hlacks|].
  exact (enrich_without_repo_name E 0%nat w Demo.bare_event Hev Hlacks).
Defined.

Lemma repo_name_named (kvs r : list (string * json)) (name : json) :
  dict_get "repo" kvs = Some (JObj r) ->
  dict_get "name" r = Some name ->
  repo_name (JObj kvs) = name.
Proof. intros Hrepo Hname. simpl. by rewrite Hrepo, Hname. Qed.

(** The requests of the loop over the references [start .. start+n), and
    what the loop leaves alone. *)
Lemma for_each_enrich_log (E : env) (events : list json) :
  forall (start : nat) (w : world),
    (forall i ev, events !! i = Some ev ->
                  heap w !! (start + i)%nat = Some ev /\ has_repo_name ev) ->
    exists w',
      for_each (enrich_activity E) (seq start (length events)) w =
        (Ret (seq start (length events)), w') /\
      net_log w' =
        net_log w ++ map (fun ev => repo_request E (repo_name ev)) events /\
      db w' = db w /\ stdout w' = stdout w /\ clock w' = clock w.
Proof.
  induction events as [|ev events IH]; intros start w Hnamed.
  - exists w. simpl. by rewrite app_nil_r.
  - destruct (Hnamed 0%nat ev eq_refl) as (Hev & (kvs & r & name & -> & Hrepo & Hname)).
    rewrite Nat.add_0_r in Hev.
    pose proof (enrich_activity_run E start w kvs r name Hev Hrepo Hname) as Hrun.
    simpl in Hrun.
    set (details := details_of E (urlopen E (length (net_log w)) (repo_request E name)))
      in *.
    set (w1 := set_heap (<[start := JObj (dict_set "repo_details" details kvs)]> (heap w))
                        (set_net_log (net_log w ++ [repo_request E name]) w)) in *.
    destruct (IH (S start) w1) as (w' & Hloop & Hlog & Hdb & Hout & Hclock).
    { intros i ev' Hi. destruct (Hnamed (S i) ev' Hi) as [Hheap Hnm].
      split; [|done]. subst w1. cbn [heap set_heap].
      rewrite lookup_insert_ne by lia. rewrite <- Hheap. f_equal. lia. }
    exists w'. split; [|split; [|done]].
    + simpl. unfold mbind, prog_bind at 1. rewrite Hrun.
      unfold mbind, prog_bind at 1. by rewrite Hloop.
    + rewrite Hlog, map_cons, (repo_name_named kvs r name Hrepo Hname).
      subst w1. cbn [net_log set_net_log set_heap]. by rewrite <- app_assoc.
Qed.

(** X15.  Enriching a list of events that all have a [repo.name] sends
    exactly one request per event, in the order of the list, each to the
    repository of its event; it prints nothing and leaves the cache
    alone. *)
Theorem enrich_all_requests (E : env) (filtered : list json) (w : world) :
  Forall has_repo_name filtered ->
  exists out w',
    enrich_all E filtered w = (Ret out, w') /\
    net_log w' =
      net_log w ++ map (fun ev => repo_request E (repo_name ev)) filtered /\
    db w' = db w /\ stdout w' = stdout w.
Proof.
  intros Hall.
  set (w0 := set_heap (map_seq 0 filtered) w).
  destruct (for_each_enrich_log E filtered 0 w0)
    as (w1 & Hloop & Hlog & Hdb & Hstdout & _).
  { intros i ev Hev. split.
    - subst w0. simpl. by rewrite lookup_map_seq_0.
    - rewrite Forall_forall in Hall. apply Hall.
      by eapply list_elem_of_lookup_2. }
  destruct (for_each_enrich E (length filtered) 0 w0) as (w1' & Hloop' & _ & Hin).
  { intros i Hi. destruct (lookup_lt_is_Some_2 filtered i) as [ev Hev]; [lia|].
    exists ev. split; [subst w0; simpl; by rewrite lookup_map_seq_0|].
    rewrite Forall_forall in Hall. apply Hall. by eapply list_elem_of_lookup_2. }
  rewrite Hloop in Hloop'. injection Hloop' as <-.
  destruct (for_each_deref (seq 0 (length filtered)) w1) as (out & Hread & _).
  { intros a Ha. apply elem_of_seq in Ha.
    destruct (Hin a) as (kvs & r & name & _ & _ & _ & Hnew); [lia|].
    by rewrite Hnew. }
  exists out, w1. split; [|done].
  unfold enrich_all. unfold mbind, prog_bind at 1. fold w0.
  unfold mbind, prog_bind at 1. by rewrite Hloop.
Qed.

Lemma enrich_all_requests_witness :
  let E := Demo.demo_env (Demo.always (URLError "timed out")) in
  Forall has_repo_name Demo.two_events /\
  exists out w',
    enrich_all E Demo.two_events Demo.empty_world = (Ret out, w') /\
    net_log w' =
      [repo_request E (JStr "a/b"); repo_request E (JStr "a/b")].
Proof.
  intros E.
  assert (Hnamed : Forall has_repo_name Demo.two_events).
  { repeat constructor; eexists _, _, _; (split; [reflexivity|]); split; reflexivity. }
  split; [exact Hnamed|].
  destruct (enrich_all_requests E Demo.two_events Demo.empty_world Hnamed)
    as (out & w' & Hrun & Hlog & _).
  exists out, w'. split; [exact Hrun | exact Hlog].
Defined.

(** X16.  Enriching an event a second time replaces its [repo_details]
    where it stands: the second call returns the reference as well, and
    the dict has the same keys in the same order as after the first. *)
Theorem enrich_twice_keeps_keys (E : env) (activity : nat) (w : world)
    (ev : json) :
  heap w !! activity = Some ev ->
  has_repo_name ev ->
  let w1 := (enrich_activity E activity w).2 in
  let w2 := (enrich_activity E activity w1).2 in
  (enrich_activity E activity w1).1 = Ret activity /\
  exists kvs1 kvs2,
    heap w1 !! activity = Some (JObj kvs1) /\
    heap w2 !! activity = Some (JObj kvs2) /\
    map fst kvs2 = map fst kvs1.
Proof.
  intros Hev (kvs & r & name & -> & Hrepo & Hname) w1 w2.
  pose proof (enrich_activity_run E activity w kvs r name Hev Hrepo Hname) as Hrun.
  simpl in Hrun.
  set (kvs1 := dict_set "repo_details"
                 (details_of E (urlopen E (length (net_log w)) (repo_request E name)))
                 kvs) in *.
  assert (Hev1 : heap w1 !! activity = Some (JObj kvs1)).
  { subst w1. rewrite Hrun. simpl. by rewrite lookup_insert_eq. }
  assert (Hrepo1 : dict_get "repo" kvs1 = Some (JObj r)).
  { subst kvs1. by rewrite dict_get_set_ne. }
  pose proof (enrich_activity_run E activity w1 kvs1 r name Hev1 Hrepo1 Hname) as Hrun1.
  simpl in Hrun1. split; [by rewrite Hrun1|].
  eexists kvs1, _. split; [done|]. split.
  - subst w2. rewrite Hrun1. simpl. by rewrite lookup_insert_eq.
  - rewrite dict_set_keys. subst kvs1. by rewrite dict_get_set_eq.
Qed.

Lemma enrich_twice_keeps_keys_witness :
  let E := Demo.demo_env (Demo.always (Body (Demo.demo_dumps Demo.repo_reply))) in
  let w := set_heap {[ 0%nat := Demo.push_event ]} Demo.empty_world in
  heap w !! 0%nat = Some Demo.push_event /\
  has_repo_name Demo.push_event /\
  (enrich_activity E 0 (enrich_activity E 0 w).2).1 = Ret 0%nat.
Proof.
  intros E w.
  assert (Hev : heap w !! 0%nat = Some Demo.push_event) by reflexivity.
  assert (Hname : has_repo_name Demo.push_event).
  { eexists _, _, _. split; [reflexivity|]. split; reflexivity. }
  split; [exact Hev|]. split; [exact Hname|].
  exact (proj1 (enrich_twice_keeps_keys E 0%nat w Demo.push_event Hev Hname)).
Defined.

End EnrichMoreFacts.

(** ** Text formatting: lines and errors *)

Section TextMoreFacts.
Import Format Spec.

Lemma text_loop_lines (E : env) (color : bool) (line_of : json -> string)
    (activities : list json) :
  Forall (fun act => text_line E color act = Ret (line_of act)) activities ->
  forall output,
    text_loop E color activities output = Ret (output ++ map line_of activities).
Proof.
  induction 1 as [|act rest Hact _ IH]; intros output; simpl.
  - by rewrite app_nil_r.
  - rewrite Hact. simpl. rewrite IH. by rewrite <- app_assoc.
Qed.

Lemma text_line_plain (E : env) (act : json) :
  has_type act ->
  text_line E false act = Ret (plain_line E (event_type act) (event_message act)).
Proof.
  intros (kvs & ty & -> & Hty). rewrite (text_line_no_color E kvs ty Hty).
  simpl. by rewrite Hty.
Qed.

(** X17.  Without [color], the text of a list of events that all have a
    [type] is one line per event, in order, joined by line breaks, each
    line being ["- "], the type, [": "] and the message, the message being
    empty for an event that has none; the text of the empty list is the
    empty string. *)
Theorem format_text_plain (E : env) (activities : list json) :
  Forall has_type activities ->
  _format_text E activities false =
  Ret (String.concat newline
         (map (fun act => plain_line E (event_type act) (event_message act))
              activities)).
Proof.
  intros Hall. unfold _format_text.
  rewrite (text_loop_lines E false
             (fun act => plain_line E (event_type act) (event_message act))).
  - done.
  - eapply Forall_impl; [exact Hall|]. intros act. apply text_line_plain.
Qed.

Lemma format_text_plain_witness :
  let E := Demo.demo_env (Demo.always (URLError "unreachable")) in
  Forall has_type [Demo.push_event; Demo.watch_event] /\
  _format_text E [Demo.push_event; Demo.watch_event] false =
    Ret ("- PushEvent: " +:+ newline +:+ "- WatchEvent: starred").
Proof.
  intros E.
  assert (Htyped : Forall has_type [Demo.push_event; Demo.watch_event]).
  { repeat constructor; eexists _, _; split; reflexivity. }
  split; [exact Htyped|].
  exact (format_text_plain E [Demo.push_event; Demo.watch_event] Htyped).
Defined.

(** X18.  [color] changes nothing for events whose type is a string other
    than the four keys of the dict of colours: their text is the same with
    and without it. *)
Theorem format_text_color_without_effect (E : env) (activities : list json) :
  Forall has_plain_type activities ->
  _format_text E activities true = _format_text E activities false.
Proof.
  intros Hall. unfold _format_text.
  rewrite !(text_loop_lines E _
              (fun act => plain_line E (event_type act) (event_message act))).
  - done.
  - eapply Forall_impl; [exact Hall|].
    intros act (kvs & ty & -> & Hty & _). apply text_line_plain. by exists kvs, (JStr ty).
  - eapply Forall_impl; [exact Hall|].
    intros act (kvs & ty & -> & Hty & Hplain).
    rewrite (text_line_unassigned E kvs ty Hty Hplain). simpl. by rewrite Hty.
Qed.

Lemma format_text_color_without_effect_witness :
  let E := Demo.demo_env (Demo.always (URLError "unreachable")) in
  Forall has_plain_type [Demo.watch_event] /\
  _format_text E [Demo.watch_event] true = _format_text E [Demo.watch_event] false.
Proof.
  intros E.
  assert (Hplain : Forall has_plain_type [Demo.watch_event]).
  { repeat constructor. eexists _, _. split; [reflexivity|].
    split; [reflexivity|]. compute_done. }
  split; [exact Hplain|].
  exact (format_text_color_without_effect E [Demo.watch_event] Hplain).
Defined.

(** X19.  An event dict without [type] makes text formatting raise
    [KeyError] for the key, with or without [color]: the lines of the
    events before it are lost with it. *)
Theorem format_text_missing_type (E : env) (color : bool)
    (before after : list json) (kvs : list (string * json)) :
  Forall (fun act => exists line, text_line E color act = Ret line) before ->
  dict_get "type" kvs = None ->
  _format_text E (before ++ JObj kvs :: after) color =
  Raise (Exn KeyError "'type'").
Proof.
  intros Hbefore Hnone. unfold _format_text.
  assert (Hloop : forall output,
            text_loop E color (before ++ JObj kvs :: after) output =
            Raise (Exn KeyError "'type'")); [|by rewrite Hloop].
  induction Hbefore as [|act rest [line Hline] _ IH]; intros output; simpl.
  - unfold text_line, subscript. by rewrite Hnone.
  - rewrite Hline. simpl. apply IH.
Qed.

Lemma format_text_missing_type_witness :
  let E := Demo.demo_env (Demo.always (URLError "unreachable")) in
  Forall (fun act => exists line, text_line E true act = Ret line)
         [Demo.push_event] /\
  dict_get "type" [("id", JStr "1")] = None /\
  _format_text E ([Demo.push_event] ++ Demo.bare_event :: []) true =
    Raise (Exn KeyError "'type'").
Proof.
  intros E.
  assert (Hbefore : Forall (fun act => exists line, text_line E true act = Ret line)
                           [Demo.push_event]).
  { repeat constructor. eexists. reflexivity. }
  split; [exact Hbefore|]. split; [reflexivity|].
  exact (format_text_missing_type E true [Demo.push_event] [] [("id", JStr "1")]
           Hbefore eq_refl).
Defined.

End TextMoreFacts.

(** ** The run as a whole *)

Section RunFacts.
Import Cache Fetch Filter Enrich Format Main Spec.

Lemma quiet_bind {A B : Type} (m : prog A) (f : A -> prog B) :
  quiet_no_exit m -> (forall a, quiet_no_exit (f a)) -> quiet_no_exit (m ≫= f).
Proof.
  intros Hm Hf w. unfold mbind, prog_bind. destruct (Hm w) as [Hout Hexit].
  destruct (m w) as [[a|e|c] w1]; simpl in *.
  - destruct (Hf a w1) as [Hout1 Hexit1]. by rewrite Hout1.
  - done.
  - by destruct (Hexit c).
Qed.

Lemma quiet_lift {A : Type} (o : outcome A) : no_exit o -> quiet_no_exit (lift o).
Proof. intros Ho w. done. Qed.

Lemma quiet_ret {A : Type} (a : A) : quiet_no_exit (mret a : prog A).
Proof. intros w. done. Qed.

Lemma quiet_try {A : Type} (body : prog A) (handler : exn -> prog A) :
  quiet_no_exit body -> (forall e, quiet_no_exit (handler e)) ->
  quiet_no_exit (try_except body handler).
Proof.
  intros Hb Hh w. unfold try_except. destruct (Hb w) as [Hout Hexit].
  destruct (body w) as [[a|e|c] w1]; simpl in *; [done| |done].
  destruct (Hh e w1) as [Hout1 Hexit1]. by rewrite Hout1.
Qed.

Lemma quiet_for_each {A B : Type} (f : A -> prog B) (l : list A) :
  (forall a, quiet_no_exit (f a)) -> quiet_no_exit (for_each f l).
Proof.
  intros Hf. induction l as [|a l IH]; simpl; [apply quiet_ret|].
  apply quiet_bind; [done|]. intros b.
  apply quiet_bind; [done|]. intros bs. apply quiet_ret.
Qed.

Lemma quiet_deref (a : nat) : quiet_no_exit (deref a).
Proof. intros w. unfold deref. by destruct (heap w !! a). Qed.

Lemma quiet_setitem (a : nat) (k : string) (v : json) :
  quiet_no_exit (setitem a k v).
Proof. intros w. unfold setitem. by destruct (heap w !! a) as [[]|]. Qed.

Lemma quiet_urlopen_text (E : env) (req : request) :
  quiet_no_exit (urlopen_text E req).
Proof.
  intros w. unfold urlopen_text, mbind, prog_bind, send. simpl.
  by destruct (urlopen E _ _).
Qed.

Lemma loads_no_exit (E : env) (s : string) : no_exit (loads E s).
Proof. intros code. unfold loads. by destruct (json_loads E s). Qed.

Lemma quiet_enrich_activity (E : env) (activity : nat) :
  quiet_no_exit (enrich_activity E activity).
Proof.
  unfold enrich_activity.
  apply quiet_bind; [apply quiet_deref|]. intros event.
  apply quiet_bind; [apply quiet_lift, subscript_no_exit|]. intros repo.
  apply quiet_bind; [apply quiet_lift, subscript_no_exit|]. intros name.
  apply quiet_bind; [|intros; apply quiet_ret].
  apply quiet_try; [|intros; apply quiet_setitem].
  apply quiet_bind; [apply quiet_urlopen_text|]. intros text.
  apply quiet_bind; [apply quiet_lift, loads_no_exit|]. intros repo_data.
  apply quiet_bind; [apply quiet_lift, py_get_no_exit|]. intros stars.
  apply quiet_bind; [apply quiet_lift, py_get_no_exit|]. intros forks.
  apply quiet_bind; [apply quiet_lift, py_get_no_exit|]. intros description.
  apply quiet_setitem.
Qed.

Lemma quiet_enrich_all (E : env) (filtered : list json) :
  quiet_no_exit (enrich_all E filtered).
Proof.
  unfold enrich_all. apply quiet_bind; [by intros w|]. intros _.
  apply quiet_bind; [apply quiet_for_each, quiet_enrich_activity|]. intros refs.
  apply quiet_for_each, quiet_deref.
Qed.

Lemma py_iter_no_exit (v : json) : no_exit (py_iter v).
Proof. intros code. by destruct v. Qed.

Lemma activity_match_no_exit (filters : filter_spec) (ev : json) :
  no_exit (activity_match filters ev).
Proof.
  unfold activity_match.
  apply bind_no_exit; [apply py_get_no_exit|]. intros ty.
  apply bind_no_exit; [apply py_get_no_exit|]. intros repo.
  apply bind_no_exit; [apply py_get_no_exit|]. done.
Qed.

Lemma filter_loop_no_exit (filters : filter_spec) (activities : list json) :
  forall acc, no_exit (filter_loop activities filters acc).
Proof.
  induction activities as [|ev rest IH]; intros acc; simpl; [done|].
  apply bind_no_exit; [apply activity_match_no_exit|]. intros keep. apply IH.
Qed.

Lemma select_no_exit (activities : list json) (filters : filter_spec) (limit : Z) :
  no_exit (select activities filters limit).
Proof.
  unfold select. apply bind_no_exit; [apply filter_loop_no_exit|]. done.
Qed.

Lemma text_line_no_exit (E : env) (color : bool) (act : json) :
  no_exit (text_line E color act).
Proof.
  unfold text_line.
  apply bind_no_exit; [apply subscript_no_exit|]. intros ty.
  apply bind_no_exit; [apply py_get_no_exit|]. intros message.
  apply bind_no_exit.
  - destruct color; [|done].
    apply bind_no_exit; [apply subscript_no_exit|]. intros ty' code.
    by destruct ty'.
  - intros [|]; [|done].
    apply bind_no_exit; [apply subscript_no_exit|]. intros ty'.
    apply bind_no_exit.
    + intros code. destruct ty' as [| | | |s| |]; unfold colors_at; try done.
      by destruct (dict_get s colors).
    + intros c. apply bind_no_exit; done.
Qed.

Lemma text_loop_no_exit (E : env) (color : bool) (activities : list json) :
  forall output, no_exit (text_loop E color activities output).
Proof.
  induction activities as [|act rest IH]; intros output; simpl; [done|].
  apply bind_no_exit; [apply text_line_no_exit|]. intros line. apply IH.
Qed.

Lemma table_loop_no_exit (E : env) (activities : list json) :
  forall table, no_exit (table_loop E activities table).
Proof.
  induction activities as [|act rest IH]; intros table; simpl; [done|].
  apply bind_no_exit; [apply table_row_no_exit|]. intros row. apply IH.
Qed.

Lemma format_output_no_exit (E : env) (activities : list json)
    (fmt : output_format) (color : bool) :
  no_exit (format_output E activities fmt color).
Proof.
  destruct fmt; simpl; try done.
  - unfold _format_text. apply bind_no_exit; [apply text_loop_no_exit|]. done.
  - unfold _format_table. apply bind_no_exit; [apply table_loop_no_exit|]. done.
Qed.

(** What the fetch prints, by the way it ends: nothing when it returns,
    at least one line when it leaves through [sys.exit], which it only
    does with status 1. *)
Lemma fetch_outcome (E : env) (user : string) (token : option string)
    (use_cache : bool) (w : world) :
  match fetch_activities E user token use_cache w with
  | (Ret _, w') => stdout w' = stdout w
  | (Raise _, w') => exists more, stdout w' = stdout w ++ more
  | (Exit code, w') =>
      code = 1%Z /\ exists line more, stdout w' = stdout w ++ line :: more
  end.
Proof.
  assert (Hreq : match request_events E user token use_cache w with
                 | (Ret _, w') => stdout w' = stdout w
                 | (Raise _, w') => exists more, stdout w' = stdout w ++ more
                 | (Exit code, w') =>
                     code = 1%Z /\
                     exists line more, stdout w' = stdout w ++ line :: more
                 end).
  { unfold request_events, mbind, prog_bind, send. simpl.
    destruct (urlopen E _ _) as [code reason headers|reason|e|text].
    - rewrite on_http_error_cases. case_bool_decide; simpl.
      + destruct (py_int E _) as [e|epoch]; simpl; [by eexists|].
        destruct (fromtimestamp E epoch) as [e|text]; simpl; [by eexists|].
        split; [done|]. by eexists _, _.
      + split; [done|]. by eexists _, _.
    - simpl. split; [done|]. by eexists _, _.
    - simpl. exists []. by rewrite app_nil_r.
    - unfold lift, loads. destruct (json_loads E text) as [msg|data]; simpl.
      + exists []. by rewrite app_nil_r.
      + by destruct use_cache. }
  unfold fetch_activities, mbind, prog_bind, mret, prog_ret.
  destruct use_cache; [|exact Hreq].
  pose proof (get_cached_world E user w) as Hw.
  assert (Hne : forall code, (_get_cached_activities E user w).1 <> Exit code).
  { intros code. unfold _get_cached_activities.
    destruct (select_fresh user (clock w) (db w)) as [|r rest]; [done|].
    unfold lift. simpl. apply loads_no_exit. }
  destruct (_get_cached_activities E user w) as [[cached|e|code] w0];
    simpl in Hw; subst w0.
  - destruct (truthy cached); [done|exact Hreq].
  - exists []. by rewrite app_nil_r.
  - by destruct (Hne code).
Qed.

Lemma on_exception_run (e : exn) (w : world) :
  on_exception e w =
  (Exit 1,
   set_stdout (stdout w ++
                 [match exn_cls e with
                  | JSONDecodeError => "Error processing API response"
                  | _ => "Unexpected error: " +:+ exn_msg e
                  end]) w).
Proof. unfold on_exception. by destruct (exn_cls e). Qed.

Lemma app_line_first (out more : list string) (line : string) :
  exists first others, (out ++ more) ++ [line] = out ++ first :: others.
Proof.
  destruct more as [|m more].
  - exists line, []. by rewrite app_nil_r.
  - exists m, (more ++ [line]). by rewrite <- app_assoc.
Qed.

Lemma run_of_pipeline (E : env) (a : args) (w : world) :
  run E a w =
  match pipeline E a w with
  | (Ret _, w') => (0%Z, w')
  | (Raise e, w') =>
      (1%Z,
       set_stdout (stdout w' ++
                     [match exn_cls e with
                      | JSONDecodeError => "Error processing API response"
                      | _ => "Unexpected error: " +:+ exn_msg e
                      end]) w')
  | (Exit code, w') => (code, w')
  end.
Proof.
  unfold run, main, _init_cache, try_except.
  unfold mbind, prog_bind, mret, prog_ret.
  destruct (pipeline E a w) as [[[]|e|code] w']; [done| |done].
  by rewrite on_exception_run.
Qed.

Lemma pipeline_split (E : env) (a : args) (w : world) :
  pipeline E a w =
  match fetch_activities E (arg_username a) (arg_token a) (arg_no_cache a) w with
  | (Ret activities, w1) =>
      match produce E a activities w1 with
      | (Ret output, w2) => print output w2
      | (Raise e, w2) => (Raise e, w2)
      | (Exit code, w2) => (Exit code, w2)
      end
  | (Raise e, w1) => (Raise e, w1)
  | (Exit code, w1) => (Exit code, w1)
  end.
Proof.
  unfold pipeline, produce, mbind, prog_bind, lift.
  destruct (fetch_activities _ _ _ _ w) as [[activities|e|code] w1]; [|done..].
  destruct (py_iter activities) as [events|e|code]; [|done..].
  destruct (select events _ _) as [filtered|e|code]; [|done..].
  destruct ((if arg_enrich a then enrich_all E filtered else mret filtered) w1)
    as [[enriched|e|code] w2]; [|done..].
  by destruct (format_output E enriched _ _).
Qed.

Lemma quiet_produce (E : env) (a : args) (activities : json) :
  quiet_no_exit (produce E a activities).
Proof.
  unfold produce.
  apply quiet_bind; [apply quiet_lift, py_iter_no_exit|]. intros events.
  apply quiet_bind; [apply quiet_lift, select_no_exit|]. intros filtered.
  apply quiet_bind.
  - destruct (arg_enrich a); [apply quiet_enrich_all|apply quiet_ret].
  - intros enriched. apply quiet_lift, format_output_no_exit.
Qed.

(** X20.  From the point where the arguments are parsed and the cache
    database is open, a run ends with status 0 or with status 1.  With
    status 0 it has printed one thing, the formatted output; with status 1
    it has printed at least one line: what goes wrong in the [try] block
    of [main] is reported. *)
Theorem run_exit_status (E : env) (a : args) (w : world) :
  ((run E a w).1 = 0%Z /\
   exists output, stdout (run E a w).2 = stdout w ++ [output]) \/
  ((run E a w).1 = 1%Z /\
   exists line more, stdout (run E a w).2 = stdout w ++ line :: more).
Proof.
  rewrite run_of_pipeline, pipeline_split.
  pose proof (fetch_outcome E (arg_username a) (arg_token a) (arg_no_cache a) w)
    as Hfetch.
  destruct (fetch_activities E (arg_username a) (arg_token a) (arg_no_cache a) w)
    as [[activities|e|code] w1].
  - destruct (quiet_produce E a activities w1) as [Hout Hne].
    destruct (produce E a activities w1) as [[output|e|code] w2]; simpl in *.
    + left. split; [done|]. exists output. by rewrite Hout, Hfetch.
    + right. split; [done|]. rewrite Hout, Hfetch. by eexists _, [].
    + by destruct (Hne code).
  - right. simpl. split; [done|]. destruct Hfetch as [more ->].
    apply app_line_first.
  - right. simpl. destruct Hfetch as [-> Hout]. by split.
Qed.

Lemma unreachable_network_run_sample :
  let E := Demo.demo_env (Demo.always (URLError "unreachable")) in
  (run E Demo.plain_args Demo.empty_world).1 = 1%Z /\
  stdout (run E Demo.plain_args Demo.empty_world).2 =
    ["Connection Error: unreachable"].
Proof. split; vm_compute; reflexivity. Qed.

Lemma run_returning (E : env) (a : args) (w w1 : world) (data : json)
    (events filtered : list json) (output : string) :
  arg_enrich a = false ->
  fetch_activities E (arg_username a) (arg_token a) (arg_no_cache a) w =
    (Ret data, w1) ->
  py_iter data = Ret events ->
  select events (filters_of a) (arg_limit a) = Ret filtered ->
  format_output E filtered (arg_format a) (arg_color a) = Ret output ->
  run E a w = (0%Z, set_stdout (stdout w1 ++ [output]) w1).
Proof.
  intros Hen Hfetch Hiter Hsel Hfmt.
  rewrite run_of_pipeline, pipeline_split, Hfetch.
  unfold produce, mbind, prog_bind, lift, mret, prog_ret.
  by rewrite Hiter, Hsel, Hen, Hfmt.
Qed.

(** A run without [--enrich], from the value the fetch returns. *)
Lemma run_after_fetch (E : env) (a : args) (w w1 : world) (data : json) :
  arg_enrich a = false ->
  fetch_activities E (arg_username a) (arg_token a) (arg_no_cache a) w =
    (Ret data, w1) ->
  run E a w =
  match events ← py_iter data;
        filtered ← select events (filters_of a) (arg_limit a);
        format_output E filtered (arg_format a) (arg_color a) with
  | Ret output => (0%Z, set_stdout (stdout w1 ++ [output]) w1)
  | Raise e => (1%Z, set_stdout (stdout w1 ++ [error_line e]) w1)
  | Exit code => (code, w1)
  end.
Proof.
  intros Hen Hfetch. rewrite run_of_pipeline, pipeline_split, Hfetch.
  unfold produce, mbind, prog_bind, outcome_bind, lift, mret, prog_ret.
  rewrite Hen.
  destruct (py_iter data) as [events|e|code]; [|done..].
  destruct (select events (filters_of a) (arg_limit a)) as [filtered|e|code];
    [|done..].
  by destruct (format_output E filtered (arg_format a) (arg_color a)).
Qed.

(** X21.  A run with caching on and without [--enrich] that finds a
    fresh cache entry whose value is truthy is offline, whatever comes
    after the fetch: it sends no request and leaves the cache table as it
    is.  If the cached value can be iterated, filtered and formatted, the
    run prints the formatted selection and ends with status 0; if one of
    the three raises, the run prints the line of the error and ends with
    status 1. *)
Theorem cached_run_is_offline (E : env) (a : args) (w : world) (cached : json) :
  arg_no_cache a = true ->
  arg_enrich a = false ->
  _get_cached_activities E (arg_username a) w = (Ret cached, w) ->
  truthy cached = true ->
  net_log (run E a w).2 = net_log w /\
  db (run E a w).2 = db w /\
  match events ← py_iter cached;
        filtered ← select events (filters_of a) (arg_limit a);
        format_output E filtered (arg_format a) (arg_color a) with
  | Ret output => run E a w = (0%Z, set_stdout (stdout w ++ [output]) w)
  | Raise e => run E a w = (1%Z, set_stdout (stdout w ++ [error_line e]) w)
  | Exit _ => False
  end.
Proof.
  intros Hcache Hen Hget Htrue.
  rewrite (run_after_fetch E a w w cached Hen)
    by (rewrite Hcache; by apply fetch_hit).
  assert (Hne : no_exit (events ← py_iter cached;
                         filtered ← select events (filters_of a) (arg_limit a);
                         format_output E filtered (arg_format a) (arg_color a))).
  { apply bind_no_exit; [apply py_iter_no_exit|]. intros events.
    apply bind_no_exit; [apply select_no_exit|]. intros filtered.
    apply format_output_no_exit. }
  destruct (py_iter cached ≫= _) as [output|e|code]; [done|done|].
  by destruct (Hne code).
Qed.

Lemma cached_run_is_offline_witness :
  let E := Demo.demo_env (Demo.always (URLError "unreachable")) in
  let w := Demo.cached_world (JArr Demo.two_events) in
  arg_no_cache Demo.table_args = true /\
  arg_enrich Demo.table_args = false /\
  _get_cached_activities E (arg_username Demo.table_args) w =
    (Ret (JArr Demo.two_events), w) /\
  truthy (JArr Demo.two_events) = true /\
  net_log (run E Demo.table_args w).2 = net_log w /\
  db (run E Demo.table_args w).2 = db w.
Proof.
  intros E w. split; [reflexivity|]. split; [reflexivity|].
  split; [reflexivity|]. split; [reflexivity|].
  exact (conj
           (proj1 (cached_run_is_offline E Demo.table_args w
                     (JArr Demo.two_events) eq_refl eq_refl eq_refl eq_refl))
           (proj1 (proj2 (cached_run_is_offline E Demo.table_args w
                            (JArr Demo.two_events)
                            eq_refl eq_refl eq_refl eq_refl)))).
Defined.

(** On the samples: a cached event whose time stamp is no time stamp ends
    the run in table mode with the line of the error, and nothing else
    of the world changes. *)
Lemma cached_run_samples :
  let E := Demo.demo_env (Demo.always (URLError "unreachable")) in
  let w := Demo.cached_world (JArr [Demo.push_event; Demo.undated_event]) in
  run E Demo.table_args w =
    (1%Z,
     set_stdout
       [("Unexpected error: time data 'yesterday' does not match format " +:+
         "'%Y-%m-%dT%H:%M:%SZ'")%string] w).
Proof. vm_compute. reflexivity. Qed.

Lemma format_output_color (E : env) (activities : list json)
    (fmt : output_format) :
  fmt <> FText ->
  format_output E activities fmt true = format_output E activities fmt false.
Proof. by destruct fmt. Qed.

(** X22.  [--color] only matters in text mode: in the json, yaml and
    table modes a run with it and a run without it end the same, with the
    same output. *)
Theorem color_only_matters_in_text (E : env) (a : args) (w : world) :
  arg_format a <> FText ->
  run E (with_color true a) w = run E (with_color false a) w.
Proof.
  intros Hfmt. rewrite !run_of_pipeline, !pipeline_split. simpl.
  destruct (fetch_activities E (arg_username a) (arg_token a) (arg_no_cache a) w)
    as [[activities|e|code] w1]; [|done..].
  assert (Hsame : produce E (with_color true a) activities w1 =
                  produce E (with_color false a) activities w1); [|by rewrite Hsame].
  unfold produce, mbind, prog_bind, lift. simpl.
  destruct (py_iter activities) as [events|e|code]; [|done..].
  destruct (select events _ _) as [filtered|e|code]; [|done..].
  destruct ((if arg_enrich a then enrich_all E filtered else mret filtered) w1)
    as [[enriched|e|code] w2]; [|done..].
  by rewrite format_output_color.
Qed.

Lemma color_only_matters_in_text_witness :
  let E := Demo.demo_env (Demo.always (URLError "unreachable")) in
  let w := Demo.cached_world (JArr Demo.two_events) in
  arg_format Demo.table_args <> FText /\
  run E (with_color true Demo.table_args) w =
  run E (with_color false Demo.table_args) w.
Proof.
  intros E w.
  assert (Hfmt : arg_format Demo.table_args <> FText) by discriminate.
  split; [exact Hfmt|].
  exact (color_only_matters_in_text E Demo.table_args w Hfmt).
Defined.

(** X23.  Two runs in a row print the same: when a run with caching on
    and without [--enrich] fetches a non-empty list from the network and
    prints its output, a second run with the same arguments within 600
    seconds prints the same output again, ends with status 0 as well and
    sends no request. *)
Theorem second_run_prints_the_same (E : env) (a : args) (w : world)
    (text : string) (data : json) (events filtered : list json)
    (output : string) (now : Z) :
  arg_no_cache a = true ->
  arg_enrich a = false ->
  reaches_network E (arg_username a) true w ->
  urlopen E (length (net_log w))
          (events_request (arg_username a) (arg_token a)) = Body text ->
  json_loads E text = inr data ->
  json_loads E (json_dumps E data) = inr data ->
  truthy data = true ->
  py_iter data = Ret events ->
  select events (filters_of a) (arg_limit a) = Ret filtered ->
  format_output E filtered (arg_format a) (arg_color a) = Ret output ->
  (now - 600 <= clock w)%Z ->
  let first := run E a w in
  let second := run E a (set_clock now first.2) in
  first.1 = 0%Z /\ stdout first.2 = stdout w ++ [output] /\
  second.1 = 0%Z /\ stdout second.2 = stdout first.2 ++ [output] /\
  net_log second.2 = net_log first.2.
Proof.
  intros Hcache Hen Hmiss Hreply Hload Hrt Htrue Hiter Hsel Hfmt Hfresh first second.
  set (user := arg_username a) in *.
  set (w1 := set_db (delete_user user (db w) ++
                       [Row user (json_dumps E data) (clock w)])
               (set_net_log (net_log w ++ [events_request user (arg_token a)]) w)).
  assert (Hfetch : fetch_activities E user (arg_token a) (arg_no_cache a) w =
                   (Ret data, w1)).
  { rewrite Hcache, (fetch_miss E user (arg_token a) true w Hmiss).
    by rewrite (request_events_body E user (arg_token a) true w text data). }
  assert (Hfirst : first = (0%Z, set_stdout (stdout w1 ++ [output]) w1)).
  { subst first. by eapply run_returning. }
  set (w2 := set_clock now (set_stdout (stdout w1 ++ [output]) w1)).
  assert (Hget : _get_cached_activities E user w2 = (Ret data, w2)).
  { unfold _get_cached_activities. subst w2 w1. simpl.
    rewrite select_fresh_after_write by done. unfold lift, loads. simpl.
    by rewrite Hrt. }
  assert (Hsecond : second = (0%Z, set_stdout (stdout w2 ++ [output]) w2)).
  { subst second. rewrite Hfirst. simpl. fold w2.
    eapply run_returning; try done. rewrite Hcache. by apply fetch_hit. }
  rewrite Hsecond, Hfirst. by subst w2 w1.
Qed.

Lemma second_run_prints_the_same_witness :
  let E := Demo.demo_env (Demo.always (Body (Demo.demo_dumps (JArr Demo.two_events)))) in
  let first := run E Demo.table_args Demo.empty_world in
  let second := run E Demo.table_args (set_clock 1300 first.2) in
  reaches_network E (arg_username Demo.table_args) true Demo.empty_world /\
  (1300 - 600 <= clock Demo.empty_world)%Z /\
  first.1 = 0%Z /\ second.1 = 0%Z /\ net_log second.2 = net_log first.2.
Proof.
  intros E first second.
  assert (Hmiss : reaches_network E (arg_username Demo.table_args) true
                    Demo.empty_world).
  { right. exists JNull. split; reflexivity. }
  assert (Hfresh : (1300 - 600 <= clock Demo.empty_world)%Z) by (simpl; lia).
  split; [exact Hmiss|]. split; [exact Hfresh|].
  destruct (second_run_prints_the_same E Demo.table_args Demo.empty_world
              (Demo.demo_dumps (JArr Demo.two_events)) (JArr Demo.two_events)
              Demo.two_events Demo.two_events
              (match format_output E Demo.two_events FTable false with
               | Ret output => output
               | _ => ""
               end)
              1300 eq_refl eq_refl Hmiss eq_refl eq_refl eq_refl eq_refl
              eq_refl eq_refl eq_refl Hfresh)
    as (H1 & _ & H2 & _ & Hlog).
  split; [exact H1|]. split; [exact H2 | exact Hlog].
Defined.

End RunFacts.

(** ** Command-line filters and enrichment, as the output shows them *)

Section OutputFacts.
Import Filter Enrich Format Main Spec.

Lemma py_eq_str_r (x : json) (t : string) : py_eq x (JStr t) = true -> x = JStr t.
Proof.
  destruct x as [|b|n|f|s|xs|kvs]; simpl; try done.
  intros H. apply String.eqb_eq in H. by subst.
Qed.

Lemma py_in_strings (x : json) (l : list string) :
  py_in x (map JStr l) = true -> exists t, t ∈ l /\ x = JStr t.
Proof.
  unfold py_in. rewrite existsb_exists. intros (y & Hy & Heq).
  apply in_map_iff in Hy as (t & <- & Ht). exists t. split.
  - by apply list_elem_of_In.
  - by apply py_eq_str_r.
Qed.

(** X24.  The names given with [--types] and [--repos] are compared as
    strings: when [--types] is given, every selected event has a [type]
    that is one of the given names, and when [--repos] is given, a
    [repo.name] that is one of the given names; an event whose type or
    repository name is no string is never selected then. *)
Theorem selected_events_match_arguments (a : args) (activities out : list json) :
  Forall is_record activities ->
  select activities (filters_of a) (arg_limit a) = Ret out ->
  forall ev, ev ∈ out ->
    (forall names, arg_types a = Some names -> names <> [] ->
       exists t, t ∈ names /\ event_type ev = JStr t) /\
    (forall names, arg_repos a = Some names -> names <> [] ->
       exists r, r ∈ names /\ repo_name ev = JStr r).
Proof.
  intros Hall Hsel ev Hin. unfold select in Hsel.
  rewrite filter_activities_records in Hsel by done. simpl in Hsel.
  injection Hsel as <-.
  assert (Hkept : keeps (filters_of a) ev).
  { unfold slice_to in Hin.
    destruct (arg_limit a <? 0)%Z; apply elem_of_take in Hin as (i & Hi & _);
      apply list_elem_of_lookup_2 in Hi;
      by apply list_elem_of_filter in Hi as [? _]. }
  destruct Hkept as [Ht Hr]. unfold filters_of in Ht, Hr. simpl in Ht, Hr. split.
  - intros names Hnames Hne. rewrite Hnames in Ht. simpl in Ht.
    destruct Ht as [Hnil|Ht]; [by destruct names|]. by apply py_in_strings.
  - intros names Hnames Hne. rewrite Hnames in Hr. simpl in Hr.
    destruct Hr as [Hnil|Hr]; [by destruct names|]. by apply py_in_strings.
Qed.

Lemma selected_events_match_arguments_witness :
  Forall is_record Demo.two_events /\
  select Demo.two_events (filters_of Demo.push_args) (arg_limit Demo.push_args) =
    Ret [Demo.push_event] /\
  exists t, t ∈ ["PushEvent"] /\ event_type Demo.push_event = JStr t.
Proof.
  assert (Hrec : Forall is_record Demo.two_events) by (repeat constructor).
  assert (Hsel : select Demo.two_events (filters_of Demo.push_args)
                   (arg_limit Demo.push_args) = Ret [Demo.push_event])
    by reflexivity.
  split; [exact Hrec|]. split; [exact Hsel|].
  refine (proj1 (selected_events_match_arguments Demo.push_args Demo.two_events
                   [Demo.push_event] Hrec Hsel Demo.push_event _)
                ["PushEvent"] eq_refl _).
  - left.
  - discriminate.
Defined.

Lemma text_line_set (E : env) (color : bool) (kvs : list (string * json))
    (k : string) (v : json) :
  k <> "type" -> k <> "message" ->
  text_line E color (JObj (dict_set k v kvs)) = text_line E color (JObj kvs).
Proof.
  intros Hty Hmsg. unfold text_line, subscript, py_get.
  by rewrite !dict_get_set_ne by done.
Qed.

Lemma table_row_set (E : env) (kvs : list (string * json)) (k : string) (v : json) :
  k <> "created_at" -> k <> "type" -> k <> "repo" -> k <> "message" ->
  table_row E (JObj (dict_set k v kvs)) = table_row E (JObj kvs).
Proof.
  intros Hc Hty Hrepo Hmsg. unfold table_row, date_cell, subscript, py_get.
  by rewrite !dict_get_set_ne by done.
Qed.

Lemma text_loop_ext (E : env) (color : bool) (l1 l2 : list json) :
  Forall2 (fun x y => text_line E color x = text_line E color y) l1 l2 ->
  forall output, text_loop E color l1 output = text_loop E color l2 output.
Proof.
  induction 1 as [|x y l1 l2 Hxy _ IH]; intros output; simpl; [done|].
  rewrite Hxy. destruct (text_line E color y); simpl; [apply IH|done..].
Qed.

Lemma table_loop_ext (E : env) (l1 l2 : list json) :
  Forall2 (fun x y => table_row E x = table_row E y) l1 l2 ->
  forall table, table_loop E l1 table = table_loop E l2 table.
Proof.
  induction 1 as [|x y l1 l2 Hxy _ IH]; intros table; simpl; [done|].
  rewrite Hxy. destruct (table_row E y); simpl; [apply IH|done..].
Qed.

(** The events that come back from the comprehension are the events that
    went in, each with [repo_details] set. *)
Lemma enrich_all_events (E : env) (filtered : list json) (w : world) :
  Forall has_repo_name filtered ->
  exists out w',
    enrich_all E filtered w = (Ret out, w') /\
    Forall2 (fun ev ev' => exists kvs details,
               ev = JObj kvs /\ ev' = JObj (dict_set "repo_details" details kvs))
            filtered out.
Proof.
  intros Hall.
  set (w0 := set_heap (map_seq 0 filtered) w).
  assert (Hlook : forall i, heap w0 !! i = filtered !! i).
  { intros i. subst w0. simpl. apply lookup_map_seq_0. }
  destruct (for_each_enrich E (length filtered) 0 w0) as (w1 & Hloop & _ & Hin).
  { intros i Hi. destruct (lookup_lt_is_Some_2 filtered i) as [ev Hev]; [lia|].
    exists ev. split; [by rewrite Hlook|].
    rewrite Forall_forall in Hall. apply Hall. by eapply list_elem_of_lookup_2. }
  destruct (for_each_deref (seq 0 (length filtered)) w1) as (out & Hread & Hlen & Hout).
  { intros a Ha. apply elem_of_seq in Ha.
    destruct (Hin a) as (kvs & r & name & _ & _ & _ & Hnew); [lia|].
    by rewrite Hnew. }
  exists out, w1. split.
  - unfold enrich_all. unfold mbind, prog_bind at 1. fold w0.
    unfold mbind, prog_bind at 1. by rewrite Hloop.
  - apply Forall2_same_length_lookup_2; [by rewrite Hlen, length_seq|].
    intros i ev ev' Hev Hev'.
    assert (Hi : (i < length filtered)%nat) by (by eapply lookup_lt_Some).
    destruct (Hin i) as (kvs & r & name & Hold & _ & _ & Hnew); [lia|].
    rewrite Hlook, Hev in Hold. injection Hold as ->.
    rewrite (Hout i i) in Hev' by (by apply lookup_seq_lt).
    rewrite Hnew in Hev'. injection Hev' as <-. by eexists _, _.
Qed.

(** X25.  Enrichment does not show in the text and table modes: for
    events that all have a [repo.name], the text and the table of the
    enriched events are those of the events as they were ([repo_details]
    is rendered in the json and yaml modes only). *)
Theorem enrichment_invisible_in_text_and_table (E : env) (filtered : list json)
    (w : world) (fmt : output_format) (color : bool) :
  Forall has_repo_name filtered ->
  fmt = FText \/ fmt = FTable ->
  exists out w',
    enrich_all E filtered w = (Ret out, w') /\
    format_output E out fmt color = format_output E filtered fmt color.
Proof.
  intros Hall Hfmt.
  destruct (enrich_all_events E filtered w Hall) as (out & w' & Hrun & Hrel).
  exists out, w'. split; [done|].
  destruct Hfmt as [-> | ->]; simpl.
  - unfold _format_text. rewrite (text_loop_ext E color out filtered); [done|].
    apply Forall2_flip. eapply Forall2_impl; [exact Hrel|].
    intros ev ev' (kvs & details & -> & ->). simpl. by apply text_line_set.
  - unfold _format_table. rewrite (table_loop_ext E out filtered); [done|].
    apply Forall2_flip. eapply Forall2_impl; [exact Hrel|].
    intros ev ev' (kvs & details & -> & ->). simpl. by apply table_row_set.
Qed.

Lemma enrichment_invisible_in_text_and_table_witness :
  let E := Demo.demo_env (Demo.always (Body (Demo.demo_dumps Demo.repo_reply))) in
  Forall has_repo_name Demo.two_events /\
  exists out w',
    enrich_all E Demo.two_events Demo.empty_world = (Ret out, w') /\
    format_output E out FTable false = format_output E Demo.two_events FTable false.
Proof.
  intros E.
  assert (Hnamed : Forall has_repo_name Demo.two_events).
  { repeat constructor; eexists _, _, _; (split; [reflexivity|]); split; reflexivity. }
  split; [exact Hnamed|].
  exact (enrichment_invisible_in_text_and_table E Demo.two_events Demo.empty_world
           FTable false Hnamed (or_intror eq_refl)).
Defined.

End OutputFacts.

(** * Table mode: the rows and the run *)

Section TableRunFacts.
Import Datetime Fetch Enrich Format Main Spec.








End TableRunFacts.
